(** * TaskWeaver: scheduling, execution, idle triggering and decomposition

    A shallow embedding of the TypeScript sources
    [core/TaskManager.ts], [core/IdleDetector.ts] and
    [core/TaskDecomposer.ts], and the properties of the scheduler that
    the specification states about them.

    Modelling conventions.
    - A JavaScript [Date] is its [getTime()] value: milliseconds, in [Z].
      The clock ([Date.now()], [new Date()]) is an explicit argument.
    - Numbers measured in seconds (intervals, thresholds, idle durations)
      are exact rationals [Q]; counts and limits are integers [Z].
      [NaN] and the infinities are outside the model.
    - Task objects live in a heap and the [Map] of the manager holds
      references to them, so that an execution suspended at an [await]
      keeps the very object it fetched when it started.
    - [Map] and [Set] keep insertion order, as in JavaScript.
    - An [async] method is split at its [await]: the synchronous prefix
      returns either a settled value or the suspended execution, and a
      resume function consumes the outcome of the awaited promise.
    - What lies outside the process is an argument: the outcome of each
      call of a task's [execute], the reading of the idle probes
      ([getSystemIdleSeconds]), and the strategies a registry holds
      (the three default ones are registered strategies like any other). *)

From Stdlib Require Import List String ZArith QArith Lia Lqa Bool.
From Stdlib Require Import Sorted Permutation DecimalString.
From stdpp Require Import base list option.
Import ListNotations.

Open Scope string_scope.
Open Scope list_scope.

(** ** JavaScript values *)

(** [x || d] on an optional number: [undefined] and [0] are falsy. *)
Definition Z_or (x : option Z) (d : Z) : Z :=
  match x with
  | Some v => if (v =? 0)%Z then d else v
  | None => d
  end.

Definition Q_truthy (q : Q) : bool := negb (Qeq_bool q 0).

Definition Q_or (x : option Q) (d : Q) : Q :=
  match x with
  | Some v => if Q_truthy v then v else d
  | None => d
  end.

(** [x || d] on an optional string: [undefined] and the empty string are falsy. *)
Definition string_or (x : option string) (d : string) : string :=
  match x with
  | Some "" => d
  | Some s => s
  | None => d
  end.

(** [a < b] on numbers. *)
Definition Qltb (a b : Q) : bool := negb (Qle_bool b a).

(** [(now - last.getTime()) / 1000]: the seconds elapsed between two
    instants given in milliseconds. *)
Definition elapsed_seconds (now last : Z) : Q := inject_Z (now - last) / 1000.

(** Decimal rendering of an integer inside a template string. *)
Definition string_of_Z (z : Z) : string := NilZero.string_of_int (Z.to_int z).

(** ** Insertion-ordered [Map<string, V>] and [Set<string>] *)

Fixpoint Map_get {V : Type} (k : string) (m : list (string * V)) : option V :=
  match m with
  | [] => None
  | (k', v) :: m' => if String.eqb k k' then Some v else Map_get k m'
  end.

(** [set] on a present key replaces the value where the key already
    stands; a new key goes to the end. *)
Fixpoint Map_set {V : Type} (k : string) (v : V) (m : list (string * V))
  : list (string * V) :=
  match m with
  | [] => [(k, v)]
  | (k', v') :: m' =>
      if String.eqb k k' then (k, v) :: m' else (k', v') :: Map_set k v m'
  end.

Definition Map_has {V : Type} (k : string) (m : list (string * V)) : bool :=
  match Map_get k m with Some _ => true | None => false end.

Definition Map_delete {V : Type} (k : string) (m : list (string * V))
  : list (string * V) :=
  List.filter (fun kv => negb (String.eqb k (fst kv))) m.

Definition Set_has (k : string) (s : list string) : bool :=
  existsb (String.eqb k) s.

Definition Set_add (k : string) (s : list string) : list string :=
  if Set_has k s then s else s ++ [k].

Definition Set_delete (k : string) (s : list string) : list string :=
  List.filter (fun k' => negb (String.eqb k k')) s.

(** [Array.prototype.sort(compare)]: a stable sort; [x] is placed before
    the first element that does not compare below it. *)
Fixpoint sort_insert {A : Type} (compare : A -> A -> Z) (x : A) (l : list A)
  : list A :=
  match l with
  | [] => [x]
  | y :: l' =>
      if (compare x y <=? 0)%Z then x :: y :: l'
      else y :: sort_insert compare x l'
  end.

Definition Array_sort {A : Type} (compare : A -> A -> Z) (l : list A) : list A :=
  fold_right (sort_insert compare) [] l.

(** ** Data model ([core/TaskManager.ts]) *)

Inductive TaskPriority := critical | high | medium | low | periodic.

Inductive TaskStatus := pending | running | completed | failed.

Definition TaskPriority_eqb (a b : TaskPriority) : bool :=
  match a, b with
  | critical, critical | high, high | medium, medium
  | low, low | periodic, periodic => true
  | _, _ => false
  end.

Definition TaskStatus_eqb (a b : TaskStatus) : bool :=
  match a, b with
  | pending, pending | running, running
  | completed, completed | failed, failed => true
  | _, _ => false
  end.

Inductive metric := MetricNumber (q : Q) | MetricString (s : string).

Record TaskResult := {
  success : bool;
  output : option string;
  error : option string;
  metrics : option (list (string * metric))
}.

(** The [execute] closure of a task is opaque: it is identified by a
    handle, and what each call of it does is told by the environment
    (see [Outcome]). *)
Definition Action := nat.

Record Task := {
  id : string;
  name : string;
  description : option string;
  priority : TaskPriority;
  status : TaskStatus;
  execute : Action;
  createdAt : option Z;
  lastRunAt : option Z;
  intervalSeconds : option Q;
  tags : option (list string);
  dependsOn : option (list string)
}.

Definition set_status (s : TaskStatus) (t : Task) : Task :=
  {| id := id t; name := name t; description := description t;
     priority := priority t; status := s; execute := execute t;
     createdAt := createdAt t; lastRunAt := lastRunAt t;
     intervalSeconds := intervalSeconds t; tags := tags t;
     dependsOn := dependsOn t |}.

Definition set_lastRunAt (d : Z) (t : Task) : Task :=
  {| id := id t; name := name t; description := description t;
     priority := priority t; status := status t; execute := execute t;
     createdAt := createdAt t; lastRunAt := Some d;
     intervalSeconds := intervalSeconds t; tags := tags t;
     dependsOn := dependsOn t |}.

Definition set_createdAt (d : option Z) (t : Task) : Task :=
  {| id := id t; name := name t; description := description t;
     priority := priority t; status := status t; execute := execute t;
     createdAt := d; lastRunAt := lastRunAt t;
     intervalSeconds := intervalSeconds t; tags := tags t;
     dependsOn := dependsOn t |}.

Definition set_dependsOn (d : option (list string)) (t : Task) : Task :=
  {| id := id t; name := name t; description := description t;
     priority := priority t; status := status t; execute := execute t;
     createdAt := createdAt t; lastRunAt := lastRunAt t;
     intervalSeconds := intervalSeconds t; tags := tags t;
     dependsOn := d |}.

Record TaskManagerConfig := {
  maxConcurrent : Z;
  timeoutSeconds : Z;
  maxRetries : Z
}.

Record PartialTaskManagerConfig := {
  opt_maxConcurrent : option Z;
  opt_timeoutSeconds : option Z;
  opt_maxRetries : option Z
}.

(** ** The task manager *)

(** A reference to a task object: its index in the heap. *)
Abbreviation ref := nat (only parsing).

Record TaskManager := {
  heap : list Task;
  tasks : list (string * ref);
  config : TaskManagerConfig;
  runningTasks : list string
}.

Definition new_TaskManager (c : PartialTaskManagerConfig) : TaskManager :=
  {| heap := [];
     tasks := [];
     config := {| maxConcurrent := Z_or (opt_maxConcurrent c) 4;
                  timeoutSeconds := Z_or (opt_timeoutSeconds c) 300;
                  maxRetries := Z_or (opt_maxRetries c) 2 |};
     runningTasks := [] |}.

Definition with_heap (h : list Task) (m : TaskManager) : TaskManager :=
  {| heap := h; tasks := tasks m; config := config m;
     runningTasks := runningTasks m |}.

Definition with_tasks (ts : list (string * ref)) (m : TaskManager) : TaskManager :=
  {| heap := heap m; tasks := ts; config := config m;
     runningTasks := runningTasks m |}.

Definition with_runningTasks (r : list string) (m : TaskManager) : TaskManager :=
  {| heap := heap m; tasks := tasks m; config := config m; runningTasks := r |}.

(** Field assignment through a reference: [task.f = v]. *)
Definition assign (r : ref) (f : Task -> Task) (m : TaskManager) : TaskManager :=
  with_heap (alter f r (heap m)) m.

(** The object literal of [addTask]: a copy of the argument. The
    declared type makes [status] mandatory, so [task.status || 'pending']
    is [task.status]; [createdAt] falls back to the clock. *)
Definition stored (task : Task) (now : Z) : Task :=
  set_status (status task)
    (set_createdAt (Some (default now (createdAt task))) task).

(** [addTask]: the map receives a reference to the fresh copy. *)
Definition addTask (task : Task) (now : Z) (m : TaskManager) : TaskManager :=
  with_tasks (Map_set (id task) (length (heap m)) (tasks m))
    (with_heap (heap m ++ [stored task now]) m).

Definition removeTask (taskId : string) (m : TaskManager) : TaskManager * bool :=
  (with_tasks (Map_delete taskId (tasks m)) m, Map_has taskId (tasks m)).

Definition getTask (m : TaskManager) (taskId : string) : option Task :=
  match Map_get taskId (tasks m) with
  | Some r => heap m !! r
  | None => None
  end.

(** [Array.from(this.tasks.values())]: the objects in the order of the
    map. (A reference outside the heap, which no method creates, yields
    no object.) *)
Definition values (m : TaskManager) : list Task :=
  omap (fun kv => heap m !! snd kv) (tasks m).

Definition priorityOrder (p : TaskPriority) : Z :=
  match p with
  | critical => 0
  | high => 1
  | medium => 2
  | low => 3
  | periodic => 4
  end.

(** One turn of the loop over [dependsOn]: the dependency must be in the
    map and completed. *)
Definition dependency_met (m : TaskManager) (depId : string) : bool :=
  match getTask m depId with
  | Some dep => TaskStatus_eqb (status dep) completed
  | None => false
  end.

(** The periodic test of the filter: true when the task is periodic, has
    a non-zero interval and a last run, and the interval has not elapsed. *)
Definition not_yet_due (now : Z) (task : Task) : bool :=
  match priority task, intervalSeconds task, lastRunAt task with
  | periodic, Some interval, Some last =>
      Q_truthy interval && Qltb (elapsed_seconds now last) interval
  | _, _, _ => false
  end.

(** The filter callback of [getPendingTasks]. *)
Definition is_eligible (m : TaskManager) (now : Z) (task : Task) : bool :=
  if negb (TaskStatus_eqb (status task) pending) then false
  else if match dependsOn task with
          | Some deps => negb (forallb (dependency_met m) deps)
          | None => false
          end then false
  else if not_yet_due now task then false
  else true.

Definition by_priority (a b : Task) : Z :=
  (priorityOrder (priority a) - priorityOrder (priority b))%Z.

Definition getPendingTasks (m : TaskManager) (now : Z) : list Task :=
  Array_sort by_priority (List.filter (is_eligible m now) (values m)).

Definition getRunningCount (m : TaskManager) : Z :=
  Z.of_nat (length (runningTasks m)).

Record TaskStats := {
  total : nat;
  n_pending : nat;
  n_running : nat;
  n_completed : nat;
  n_failed : nat
}.

Definition count_status (s : TaskStatus) (l : list Task) : nat :=
  length (List.filter (fun t => TaskStatus_eqb (status t) s) l).

Definition getStats (m : TaskManager) : TaskStats :=
  {| total := length (tasks m);
     n_pending := count_status pending (values m);
     n_running := count_status running (values m);
     n_completed := count_status completed (values m);
     n_failed := count_status failed (values m) |}.

(** [clearCompleted] deletes the entries whose object is completed and
    not periodic, and counts them. *)
Definition clearable (m : TaskManager) (kv : string * ref) : bool :=
  match heap m !! snd kv with
  | Some t =>
      TaskStatus_eqb (status t) completed
      && negb (TaskPriority_eqb (priority t) periodic)
  | None => false
  end.

Definition clearCompleted (m : TaskManager) : TaskManager * nat :=
  (with_tasks (List.filter (fun kv => negb (clearable m kv)) (tasks m)) m,
   length (List.filter (clearable m) (tasks m))).

(** ** Execution *)

(** How the promise of [executeWithTimeout] settles: the action fulfils
    with a result, the action rejects (or throws) with a message, or the
    timer fires first. *)
Inductive Outcome :=
| Resolved (result : TaskResult)
| Rejected (message : string)
| TimedOut.

(** The local variables of an [executeTask] call suspended at its [await]. *)
Record Execution := {
  ex_taskId : string;
  ex_task : ref;
  ex_retries : Z;
  ex_lastError : option string
}.

(** What an [async] call has produced once control comes back to the
    event loop: the value its promise is fulfilled with, or a suspended
    execution whose action has just been invoked. *)
Inductive Completion :=
| Returned (value : option TaskResult)
| Awaiting (ex : Execution).

Definition timeout_message (c : TaskManagerConfig) : string :=
  "Task timeout after " ++ string_of_Z (timeoutSeconds c) ++ "s".

(** The message the [catch] clause stores in [lastError]. *)
Definition failure_message (c : TaskManagerConfig) (o : Outcome) : option string :=
  match o with
  | Resolved _ => None
  | Rejected message => Some message
  | TimedOut => Some (timeout_message c)
  end.

Definition is_periodic (m : TaskManager) (r : ref) : bool :=
  match heap m !! r with
  | Some t => TaskPriority_eqb (priority t) periodic
  | None => false
  end.

(** The head of [while (retries <= maxRetries)]: either the body runs,
    which invokes the action and awaits it, or the loop is left and the
    task is marked failed. *)
Definition executeTask_loop (m : TaskManager) (ex : Execution)
  : TaskManager * Completion :=
  if (ex_retries ex <=? maxRetries (config m))%Z then (m, Awaiting ex)
  else
    let m1 := assign (ex_task ex) (set_status failed) m in
    let m2 := with_runningTasks (Set_delete (ex_taskId ex) (runningTasks m1)) m1 in
    (m2, Returned (Some {| success := false; output := None;
                           error := ex_lastError ex; metrics := None |})).

(** [executeTask(taskId)] up to its first [await]: null when the map has
    no object for [taskId]; otherwise the object is marked running, the
    id is registered and the loop is entered. *)
Definition executeTask (m : TaskManager) (taskId : string)
  : TaskManager * Completion :=
  match Map_get taskId (tasks m) with
  | None => (m, Returned None)
  | Some r =>
      match heap m !! r with
      | None => (m, Returned None)
      | Some _ =>
          let m1 := assign r (set_status running) m in
          let m2 := with_runningTasks (Set_add taskId (runningTasks m1)) m1 in
          executeTask_loop m2
            {| ex_taskId := taskId; ex_task := r;
               ex_retries := 0; ex_lastError := None |}
      end
  end.

(** The continuation of [executeTask] after its [await], at time [now],
    once the awaited promise has settled as [o]. *)
Definition executeTask_resume (m : TaskManager) (ex : Execution)
    (o : Outcome) (now : Z) : TaskManager * Completion :=
  match o with
  | Resolved result =>
      let r := ex_task ex in
      let m1 :=
        assign r (set_status (if success result then completed else failed)) m in
      let m2 := assign r (set_lastRunAt now) m1 in
      let m3 :=
        if success result then
          if is_periodic m2 r then assign r (set_status pending) m2 else m2
        else m2 in
      (with_runningTasks (Set_delete (ex_taskId ex) (runningTasks m3)) m3,
       Returned (Some result))
  | Rejected _ | TimedOut =>
      executeTask_loop m
        {| ex_taskId := ex_taskId ex; ex_task := ex_task ex;
           ex_retries := ex_retries ex + 1;
           ex_lastError := failure_message (config m) o |}
  end.

(** [executeNext()] up to its first [await]. *)
Definition executeNext (m : TaskManager) (now : Z) : TaskManager * Completion :=
  if (getRunningCount m >=? maxConcurrent (config m))%Z then (m, Returned None)
  else
    match getPendingTasks m now with
    | [] => (m, Returned None)
    | task :: _ => executeTask m (id task)
    end.

(** An execution run on its own, nothing else interleaved: the attempts
    settle as the environment says, each with the time at which it
    settles. When the list runs out the execution is still awaiting. *)
Fixpoint settle_all (m : TaskManager) (ex : Execution)
    (outs : list (Outcome * Z)) : TaskManager * Completion :=
  match outs with
  | [] => (m, Awaiting ex)
  | (o, now) :: outs' =>
      match executeTask_resume m ex o now with
      | (m', Awaiting ex') => settle_all m' ex' outs'
      | (m', Returned v) => (m', Returned v)
      end
  end.

Definition run_to (c : TaskManager * Completion) (outs : list (Outcome * Z))
  : TaskManager * Completion :=
  match c with
  | (m, Awaiting ex) => settle_all m ex outs
  | (m, Returned v) => (m, Returned v)
  end.

Definition executeTask_run (m : TaskManager) (taskId : string)
    (outs : list (Outcome * Z)) : TaskManager * Completion :=
  run_to (executeTask m taskId) outs.

(** ** Interleaved executions

    The event loop holds the manager and the executions suspended at
    their [await]; each of them has one call of [task.execute()] in
    flight. *)
Record System := {
  manager : TaskManager;
  inflight : list Execution
}.

Definition enter (s : System) (c : TaskManager * Completion) : System :=
  match c with
  | (m, Awaiting ex) => {| manager := m; inflight := inflight s ++ [ex] |}
  | (m, Returned _) => {| manager := m; inflight := inflight s |}
  end.

Definition call_executeTask (s : System) (taskId : string) : System :=
  enter s (executeTask (manager s) taskId).

Definition call_executeNext (s : System) (now : Z) : System :=
  enter s (executeNext (manager s) now).

(** The [i]-th suspended execution is resumed with outcome [o]. *)
Definition deliver (s : System) (i : nat) (o : Outcome) (now : Z) : System :=
  match inflight s !! i with
  | None => s
  | Some ex =>
      match executeTask_resume (manager s) ex o now with
      | (m, Awaiting ex') =>
          {| manager := m; inflight := <[i := ex']> (inflight s) |}
      | (m, Returned _) =>
          {| manager := m; inflight := delete i (inflight s) |}
      end
  end.

(** Executions of task [taskId] in flight. *)
Definition executions_of (s : System) (taskId : string) : list Execution :=
  List.filter (fun ex => String.eqb taskId (ex_taskId ex)) (inflight s).

(** ** Idle trigger ([core/IdleDetector.ts]) *)

Record IdleState := {
  systemIdleSeconds : option Q;
  userSilentSeconds : option Q;
  hasActiveTasks : option bool;
  lastActivityTime : option Z
}.

Record IdleDetectorConfig := {
  idleThresholdSeconds : Q;
  userSilentThresholdSeconds : Q;
  cooldownSeconds : Q
}.

Record PartialIdleDetectorConfig := {
  opt_idleThresholdSeconds : option Q;
  opt_userSilentThresholdSeconds : option Q;
  opt_cooldownSeconds : option Q
}.

Record IdleDetector := {
  idle_config : IdleDetectorConfig;
  lastTriggerTime : option Z
}.

Definition new_IdleDetector (c : PartialIdleDetectorConfig) : IdleDetector :=
  {| idle_config :=
       {| idleThresholdSeconds := Q_or (opt_idleThresholdSeconds c) 600;
          userSilentThresholdSeconds := Q_or (opt_userSilentThresholdSeconds c) 600;
          cooldownSeconds := Q_or (opt_cooldownSeconds c) 1800 |};
     lastTriggerTime := None |}.

(** The cooldown test at the head of [shouldTrigger]. *)
Definition cooling_down (d : IdleDetector) (now : Z) : bool :=
  match lastTriggerTime d with
  | Some last =>
      Qltb (elapsed_seconds now last) (cooldownSeconds (idle_config d))
  | None => false
  end.

(** [shouldTrigger(state)] at time [now]; [probe] is what
    [getSystemIdleSeconds()] would return, read only when the state
    carries no [systemIdleSeconds]. The state is a [Partial<IdleState>]:
    every field may be absent. *)
Definition shouldTrigger (d : IdleDetector) (now : Z) (probe : Q)
    (state : IdleState) : bool :=
  if cooling_down d now then false
  else
    let systemIdle := default probe (systemIdleSeconds state) in
    if Qltb systemIdle (idleThresholdSeconds (idle_config d)) then false
    else if match userSilentSeconds state with
            | Some silent =>
                Qltb silent (userSilentThresholdSeconds (idle_config d))
            | None => false
            end then false
    else if default false (hasActiveTasks state) then false
    else true.

Definition markTriggered (d : IdleDetector) (now : Z) : IdleDetector :=
  {| idle_config := idle_config d; lastTriggerTime := Some now |}.

(** ** Decomposition registry ([core/TaskDecomposer.ts]) *)

Module DecompositionStrategy.
Record t := {
  name : string;
  matches : string -> bool;
  decompose : Task -> list Task
}.
End DecompositionStrategy.

Record TaskDecomposer := {
  strategies : list DecompositionStrategy.t
}.

Definition registerStrategy (strategy : DecompositionStrategy.t)
    (d : TaskDecomposer) : TaskDecomposer :=
  {| strategies := strategies d ++ [strategy] |}.

(** The loop over the subtasks: a missing [dependsOn] becomes [[]]. *)
Definition fill_dependsOn (subtask : Task) : Task :=
  match dependsOn subtask with
  | Some _ => subtask
  | None => set_dependsOn (Some []) subtask
  end.

(** The loop of [decompose] over the strategies, in registration order. *)
Fixpoint decompose_from (l : list DecompositionStrategy.t)
    (description : string) (task : Task) : list Task :=
  match l with
  | [] => [task]
  | strategy :: l' =>
      if DecompositionStrategy.matches strategy description
      then map fill_dependsOn (DecompositionStrategy.decompose strategy task)
      else decompose_from l' description task
  end.

Definition decompose (d : TaskDecomposer) (task : Task) : list Task :=
  decompose_from (strategies d) (string_or (description task) (name task)) task.

Definition canDecompose (d : TaskDecomposer) (task : Task) : bool :=
  existsb
    (fun s => DecompositionStrategy.matches s
                (string_or (description task) (name task)))
    (strategies d).

(** *** The first default strategy

    Source strings are kept as their UTF-8 bytes. [toLowerCase] is the
    case mapping of the language, an argument of the model; so are the
    three readings of the clock that one call of the strategy makes. *)

(** [s.includes(k)]: [k] occurs in [s]. *)
Fixpoint includes (k s : string) : bool :=
  String.prefix k s
  || match s with
     | EmptyString => false
     | String _ s' => includes k s'
     end.

Definition search_keywords : list string :=
  ["搜索"; "整理"; "检查"; "分析"; "search"; "organize"; "check"; "analyze"].

Definition search_subtask (task : Task) (created : Z) : Task :=
  {| id := id task ++ "-search";
     name := "搜索: " ++ name task;
     description :=
       Some ("搜索相关信息: " ++ string_or (description task) (name task))%string;
     priority := priority task; status := pending; execute := execute task;
     createdAt := Some created; lastRunAt := None; intervalSeconds := None;
     tags := Some ["search"]; dependsOn := None |}.

Definition organize_subtask (task : Task) (created : Z) : Task :=
  {| id := id task ++ "-organize";
     name := "整理: " ++ name task;
     description := Some "整理搜索结果";
     priority := priority task; status := pending; execute := execute task;
     createdAt := Some created; lastRunAt := None; intervalSeconds := None;
     tags := Some ["organize"];
     dependsOn := Some [(id task ++ "-search")%string] |}.

Definition execute_subtask (task : Task) (created : Z) : Task :=
  {| id := id task ++ "-execute";
     name := "执行: " ++ name task;
     description := Some "执行改进";
     priority := priority task; status := pending; execute := execute task;
     createdAt := Some created; lastRunAt := None; intervalSeconds := None;
     tags := Some ["execute"];
     dependsOn := Some [(id task ++ "-organize")%string] |}.

Definition search_organize_execute (toLowerCase : string -> string)
    (t1 t2 t3 : Z) : DecompositionStrategy.t :=
  {| DecompositionStrategy.name := "search-organize-execute";
     DecompositionStrategy.matches := fun desc =>
       existsb (fun k => includes k (toLowerCase desc)) search_keywords;
     DecompositionStrategy.decompose := fun task =>
       [search_subtask task t1; organize_subtask task t2;
        execute_subtask task t3] |}.

(** ** The orchestrator ([src/index.ts])

    The callbacks are the caller's: the model records the calls made to
    them. Console output is left out. *)

(** [getCurrentState(userSilentSeconds?, hasActiveTasks?)]; [probe] is
    the reading of [getSystemIdleSeconds()]. *)
Definition getCurrentState (probe : Q) (now : Z) (silent : option Q)
    (active : option bool) : IdleState :=
  {| systemIdleSeconds := Some probe;
     userSilentSeconds := Some (default 0%Q silent);
     hasActiveTasks := Some (default false active);
     lastActivityTime := Some now |}.

Inductive CallbackCall :=
| OnTrigger (pending : list Task)
| OnTaskComplete (task : Task) (result : TaskResult).

Module TaskWeaver.

Record Config := {
  idleDetector : option PartialIdleDetectorConfig;
  taskManager : option PartialTaskManagerConfig;
  heartbeatIntervalMs : option Z;
  enableDecomposition : option bool;
  onTrigger : bool;
  onTaskComplete : bool
}.

Record t := {
  detector : IdleDetector;
  manager : TaskManager;
  decomposer : TaskDecomposer;
  intervalMs : Z;
  decomposing : bool;
  hasOnTrigger : bool;
  hasOnTaskComplete : bool;
  intervalId : option nat;
  isRunning : bool;
  calls : list CallbackCall
}.

Definition empty_idle : PartialIdleDetectorConfig :=
  {| opt_idleThresholdSeconds := None; opt_userSilentThresholdSeconds := None;
     opt_cooldownSeconds := None |}.

Definition empty_manager : PartialTaskManagerConfig :=
  {| opt_maxConcurrent := None; opt_timeoutSeconds := None;
     opt_maxRetries := None |}.

(** The constructor; [defaults] is the registry of a new
    [TaskDecomposer], which holds the default strategies. *)
Definition new (c : Config) (defaults : TaskDecomposer) : t :=
  {| detector := new_IdleDetector (default empty_idle (idleDetector c));
     manager := new_TaskManager (default empty_manager (taskManager c));
     decomposer := defaults;
     intervalMs := Z_or (heartbeatIntervalMs c) 60000;
     decomposing := default true (enableDecomposition c);
     hasOnTrigger := onTrigger c;
     hasOnTaskComplete := onTaskComplete c;
     intervalId := None;
     isRunning := false;
     calls := [] |}.

Definition with_manager (m : TaskManager) (w : t) : t :=
  {| detector := detector w; manager := m; decomposer := decomposer w;
     intervalMs := intervalMs w; decomposing := decomposing w;
     hasOnTrigger := hasOnTrigger w; hasOnTaskComplete := hasOnTaskComplete w;
     intervalId := intervalId w; isRunning := isRunning w; calls := calls w |}.

Definition with_detector (d : IdleDetector) (w : t) : t :=
  {| detector := d; manager := manager w; decomposer := decomposer w;
     intervalMs := intervalMs w; decomposing := decomposing w;
     hasOnTrigger := hasOnTrigger w; hasOnTaskComplete := hasOnTaskComplete w;
     intervalId := intervalId w; isRunning := isRunning w; calls := calls w |}.

Definition call (c : CallbackCall) (w : t) : t :=
  {| detector := detector w; manager := manager w; decomposer := decomposer w;
     intervalMs := intervalMs w; decomposing := decomposing w;
     hasOnTrigger := hasOnTrigger w; hasOnTaskComplete := hasOnTaskComplete w;
     intervalId := intervalId w; isRunning := isRunning w;
     calls := calls w ++ [c] |}.

Definition with_timer (timer : option nat) (running : bool) (w : t) : t :=
  {| detector := detector w; manager := manager w; decomposer := decomposer w;
     intervalMs := intervalMs w; decomposing := decomposing w;
     hasOnTrigger := hasOnTrigger w; hasOnTaskComplete := hasOnTaskComplete w;
     intervalId := timer; isRunning := running; calls := calls w |}.

(** [addTask]: the subtasks when decomposition is enabled and a strategy
    matches, the task itself otherwise. [now] is the clock of the call. *)
Definition addTask (task : Task) (now : Z) (w : t) : t :=
  if decomposing w && canDecompose (decomposer w) task then
    with_manager
      (fold_left (fun m subtask => addTask subtask now m)
         (decompose (decomposer w) task) (manager w)) w
  else with_manager (addTask task now (manager w)) w.

Definition removeTask (taskId : string) (w : t) : t * bool :=
  (with_manager (fst (removeTask taskId (manager w))) w,
   snd (removeTask taskId (manager w))).

(** [start]; [timer] is the handle [setInterval] returns. *)
Definition start (timer : nat) (w : t) : t :=
  if isRunning w then w else with_timer (Some timer) true w.

Definition stop (w : t) : t :=
  if negb (isRunning w) then w else with_timer None false w.

(** The readings of the clock a heartbeat makes, in the order of the
    code: [getCurrentState], [shouldTrigger], [getPendingTasks],
    [markTriggered], and the [getPendingTasks] of [executeNext]. *)
Record Readings := {
  at_state : Z;
  at_check : Z;
  at_pending : Z;
  at_mark : Z;
  at_next : Z
}.

(** What a heartbeat has done when control returns to the event loop:
    nothing more to do, or it awaits [executeNext()], whose call has
    produced [c], and remembers the first pending task. *)
Inductive Beat :=
| Rested
| AwaitingNext (first : Task) (c : Completion).

(** [heartbeat()] up to its [await]. *)
Definition heartbeat (w : t) (probe : Q) (clock : Readings) : t * Beat :=
  let state := getCurrentState probe (at_state clock) None None in
  let trigger :=
    shouldTrigger (detector w) (at_check clock) probe
      {| systemIdleSeconds := systemIdleSeconds state;
         userSilentSeconds := userSilentSeconds state;
         hasActiveTasks := Some (0 <? getRunningCount (manager w))%Z;
         lastActivityTime := lastActivityTime state |} in
  if trigger then
    match getPendingTasks (manager w) (at_pending clock) with
    | [] => (w, Rested)
    | first :: rest =>
        let w1 := if hasOnTrigger w then call (OnTrigger (first :: rest)) w else w in
        let w2 := with_detector (markTriggered (detector w1) (at_mark clock)) w1 in
        let result := executeNext (manager w2) (at_next clock) in
        (with_manager (fst result) w2, AwaitingNext first (snd result))
    end
  else (w, Rested).

(** [heartbeat()] after its [await], with the result of [executeNext()]. *)
Definition heartbeat_resume (w : t) (first : Task) (result : option TaskResult)
  : t :=
  match result with
  | Some r =>
      if hasOnTaskComplete w then
        match getTask (manager w) (id first) with
        | Some task => call (OnTaskComplete task r) w
        | None => w
        end
      else w
  | None => w
  end.

Definition executeNext (w : t) (now : Z) : t * Completion :=
  (with_manager (fst (executeNext (manager w) now)) w,
   snd (executeNext (manager w) now)).

Definition executeTask (w : t) (taskId : string) : t * Completion :=
  (with_manager (fst (executeTask (manager w) taskId)) w,
   snd (executeTask (manager w) taskId)).

Record Status := {
  status_isRunning : bool;
  idleState : IdleState;
  taskStats : TaskStats
}.

Definition getStatus (w : t) (probe : Q) (now : Z) : Status :=
  {| status_isRunning := isRunning w;
     idleState := getCurrentState probe now None None;
     taskStats := getStats (manager w) |}.

End TaskWeaver.

(** ** Vocabulary of the statements *)

(** An attempt fails when its promise is rejected: the action threw or
    rejected, or the timer fired. *)
Definition is_failure (o : Outcome) : bool :=
  match o with
  | Resolved _ => false
  | Rejected _ | TimedOut => true
  end.

Definition all_failures (outs : list (Outcome * Z)) : bool :=
  forallb (fun ot => is_failure (fst ot)) outs.

(** [lastError] after the attempts [outs] have failed in turn. *)
Definition last_error (c : TaskManagerConfig) (init : option string)
    (outs : list (Outcome * Z)) : option string :=
  fold_left (fun _ ot => failure_message c (fst ot)) outs init.

(** The suspended execution after the attempts [fails] have failed. *)
Definition after_failures (c : TaskManagerConfig) (ex : Execution)
    (fails : list (Outcome * Z)) : Execution :=
  {| ex_taskId := ex_taskId ex; ex_task := ex_task ex;
     ex_retries := ex_retries ex + Z.of_nat (length fails);
     ex_lastError := last_error c (ex_lastError ex) fails |}.

(** The status a fulfilled attempt leaves on the task. *)
Definition settled_status (result : TaskResult) (task : Task) : TaskStatus :=
  if success result then
    if TaskPriority_eqb (priority task) periodic then pending else completed
  else failed.

(** The manager once [executeTask] has marked the object behind [r]
    running and registered [taskId] in the running set. *)
Definition started (m : TaskManager) (taskId : string) (r : ref) : TaskManager :=
  with_runningTasks (Set_add taskId (runningTasks m))
    (assign r (set_status running) m).

(** The local variables of [executeTask] when it enters its loop. *)
Definition first_attempt (taskId : string) (r : ref) : Execution :=
  {| ex_taskId := taskId; ex_task := r; ex_retries := 0; ex_lastError := None |}.

(** The result synthesised when the retries are exhausted. *)
Definition failure_result (message : option string) : TaskResult :=
  {| success := false; output := None; error := message; metrics := None |}.

(** The object behind [r] is a periodic task that is not completed. *)
Definition never_completed (r : ref) (m : TaskManager) : Prop :=
  exists t, heap m !! r = Some t /\ priority t = periodic /\ status t <> completed.

(** The shape of every store the methods build: keys are distinct, they
    point into the heap, and each object is held under its own id. *)
Definition store_ok (m : TaskManager) : Prop :=
  List.NoDup (map fst (tasks m))
  /\ (forall k r, In (k, r) (tasks m) -> (r < length (heap m))%nat)
  /\ (forall k r t, In (k, r) (tasks m) -> heap m !! r = Some t -> id t = k).

(** Every dependency of the task is in the store and completed. *)
Definition dependencies_completed (m : TaskManager) (task : Task) : Prop :=
  forall deps depId,
    dependsOn task = Some deps -> In depId deps ->
    exists dep, getTask m depId = Some dep /\ status dep = completed.

(** A comparator that is the difference of two ranks. *)
Definition by_rank {A : Type} (rank : A -> Z) (a b : A) : Z := (rank a - rank b)%Z.

(** The rank of [a] is at most the rank of [b]. *)
Definition priority_le (a b : Task) : Prop :=
  (priorityOrder (priority a) <= priorityOrder (priority b))%Z.

Definition has_priority (p : TaskPriority) (task : Task) : bool :=
  TaskPriority_eqb (priority task) p.

(** A pending task without dependencies, its other fields taken from [rest]. *)
Definition pending_task (i : string) (p : TaskPriority) (rest : Task) : Task :=
  {| id := i; name := name rest; description := description rest;
     priority := p; status := pending; execute := execute rest;
     createdAt := createdAt rest; lastRunAt := lastRunAt rest;
     intervalSeconds := intervalSeconds rest; tags := tags rest;
     dependsOn := None |}.

(** A task with the two fields an execution writes blanked. *)
Definition descriptor (t : Task) : Task :=
  {| id := id t; name := name t; description := description t;
     priority := priority t; status := pending; execute := execute t;
     createdAt := createdAt t; lastRunAt := None;
     intervalSeconds := intervalSeconds t; tags := tags t;
     dependsOn := dependsOn t |}.

(** From [m] to [m'] the map and the configuration are the same, every
    object but the one behind [r] is the same, and that one differs at
    most in [status] and [lastRunAt]. *)
Definition only_touches (r : ref) (m m' : TaskManager) : Prop :=
  tasks m' = tasks m
  /\ config m' = config m
  /\ (forall r', r' <> r -> heap m' !! r' = heap m !! r')
  /\ (descriptor <$> heap m' !! r) = (descriptor <$> heap m !! r).

(** What [clearCompleted] deletes: completed and not periodic. *)
Definition is_cleared (t : Task) : bool :=
  TaskStatus_eqb (status t) completed
  && negb (TaskPriority_eqb (priority t) periodic).

(** ** Sample stores *)

Definition default_config : PartialTaskManagerConfig :=
  {| opt_maxConcurrent := None; opt_timeoutSeconds := None;
     opt_maxRetries := None |}.

Definition sample (i : string) (p : TaskPriority) (s : TaskStatus)
    (deps : option (list string)) : Task :=
  {| id := i; name := i; description := None; priority := p; status := s;
     execute := 0%nat; createdAt := Some 0%Z; lastRunAt := None;
     intervalSeconds := None; tags := None; dependsOn := deps |}.

(** Task [b] waits for task [a], which is still pending. *)
Definition store_ab : TaskManager :=
  addTask (sample "b" high pending (Some ["a"])) 0
    (addTask (sample "a" low pending None) 0 (new_TaskManager default_config)).

(** One slot, taken by task [a], while task [b] is pending. *)
Definition store_full : TaskManager :=
  {| heap := [sample "a" high running None; sample "b" low pending None];
     tasks := [("a", 0%nat); ("b", 1%nat)];
     config := {| maxConcurrent := 1; timeoutSeconds := 300; maxRetries := 2 |};
     runningTasks := ["a"] |}.

(** The detector of the idle scenario, and its idle state. *)
Definition scenario_detector : IdleDetector :=
  new_IdleDetector
    {| opt_idleThresholdSeconds := Some 600%Q;
       opt_userSilentThresholdSeconds := None;
       opt_cooldownSeconds := Some 1800%Q |}.

Definition scenario_state (activity : option Z) : IdleState :=
  {| systemIdleSeconds := Some 700%Q; userSilentSeconds := None;
     hasActiveTasks := Some false; lastActivityTime := activity |}.

(** A registry with one strategy, for descriptions that start with a plus sign. *)
Definition plus_strategy : DecompositionStrategy.t :=
  {| DecompositionStrategy.name := "plus";
     DecompositionStrategy.matches := String.prefix "+";
     DecompositionStrategy.decompose := fun task => [task; task] |}.

Definition plus_registry : TaskDecomposer := {| strategies := [plus_strategy] |}.

(** One task [a], with the default limits: two retries, 300 seconds. *)
Definition store_retry : TaskManager :=
  addTask (sample "a" low pending None) 0 (new_TaskManager default_config).

(** An hourly task [p] that has never run. *)
Definition hourly : Task :=
  {| id := "p"; name := "p"; description := None; priority := periodic;
     status := pending; execute := 0%nat; createdAt := Some 0%Z;
     lastRunAt := None; intervalSeconds := Some 3600%Q; tags := None;
     dependsOn := None |}.

Definition store_hourly : TaskManager :=
  addTask hourly 0 (new_TaskManager default_config).

Definition succeeded : TaskResult :=
  {| success := true; output := Some "ok"; error := None; metrics := None |}.

Definition unsuccessful : TaskResult :=
  {| success := false; output := None; error := Some "no"; metrics := None |}.

(** One slot, taken by task [a]; task [c] is completed. *)
Definition store_done : TaskManager :=
  {| heap := [sample "a" high running None; sample "c" low completed None];
     tasks := [("a", 0%nat); ("c", 1%nat)];
     config := {| maxConcurrent := 1; timeoutSeconds := 300; maxRetries := 2 |};
     runningTasks := ["a"] |}.

Definition system_done : System :=
  {| manager := store_done; inflight := [first_attempt "a" 0] |}.

(** Task [a] alone, nothing in flight; then [executeTask("a")] called
    once, and called a second time before the first call has settled. *)
Definition system_idle : System := {| manager := store_retry; inflight := [] |}.

Definition system_once : System := call_executeTask system_idle "a".

Definition system_twice : System := call_executeTask system_once "a".

(** A store with a completed task, a completed periodic task and a
    failed one. *)
Definition store_mixed : TaskManager :=
  addTask (sample "f" low failed None) 0
    (addTask (sample "p" periodic completed None) 0
       (addTask (sample "c" high completed None) 0
          (new_TaskManager default_config))).

(** A configuration that asks for no retry. *)
Definition no_retry_config : PartialTaskManagerConfig :=
  {| opt_maxConcurrent := None; opt_timeoutSeconds := None;
     opt_maxRetries := Some 0%Z |}.

(** Task [a] is being executed and task [b] waits for it. *)
Definition store_ab_running : TaskManager := fst (executeTask store_ab "a").

(** A second strategy, for descriptions that start with a plus sign or
    a minus sign; where both match, [plus_strategy] is registered first. *)
Definition sign_strategy : DecompositionStrategy.t :=
  {| DecompositionStrategy.name := "sign";
     DecompositionStrategy.matches :=
       fun s => String.prefix "+" s || String.prefix "-" s;
     DecompositionStrategy.decompose := fun task => [task] |}.

(** The orchestrator of the documentation: thresholds 600 and 1800,
    everything else by default, the first default strategy registered. *)
Definition weaver_config : TaskWeaver.Config :=
  {| TaskWeaver.idleDetector :=
       Some {| opt_idleThresholdSeconds := Some 600%Q;
               opt_userSilentThresholdSeconds := None;
               opt_cooldownSeconds := Some 1800%Q |};
     TaskWeaver.taskManager := None;
     TaskWeaver.heartbeatIntervalMs := None;
     TaskWeaver.enableDecomposition := None;
     TaskWeaver.onTrigger := true;
     TaskWeaver.onTaskComplete := true |}.

Definition weaver_registry : TaskDecomposer :=
  {| strategies := [search_organize_execute (fun s => s) 1 2 3] |}.

Definition weaver : TaskWeaver.t := TaskWeaver.new weaver_config weaver_registry.

(** The same, with a task stored and marked running. *)
Definition weaver_busy : TaskWeaver.t :=
  fst (TaskWeaver.executeTask
         (TaskWeaver.addTask (sample "a" low pending None) 0 weaver) "a").

Definition noon : TaskWeaver.Readings :=
  {| TaskWeaver.at_state := 1000; TaskWeaver.at_check := 1001;
     TaskWeaver.at_pending := 1002; TaskWeaver.at_mark := 1003;
     TaskWeaver.at_next := 1004 |}.

(** A detector asked for no cooldown. *)
Definition no_cooldown_config : PartialIdleDetectorConfig :=
  {| opt_idleThresholdSeconds := None; opt_userSilentThresholdSeconds := None;
     opt_cooldownSeconds := Some 0%Q |}.

(** Task [q] waits for the hourly task [p]. *)
Definition store_after_hourly : TaskManager :=
  addTask (sample "q" high pending (Some ["p"])) 0 store_hourly.

(** Task [d] waits for task [c], which is completed. *)
Definition store_cd : TaskManager :=
  addTask (sample "d" low pending (Some ["c"])) 0
    (addTask (sample "c" high completed None) 0 (new_TaskManager default_config)).

(** An orchestrator whose silence threshold is negative, with one
    pending task. *)
Definition eager_config : TaskWeaver.Config :=
  {| TaskWeaver.idleDetector :=
       Some {| opt_idleThresholdSeconds := Some 600%Q;
               opt_userSilentThresholdSeconds := Some (-1)%Q;
               opt_cooldownSeconds := Some 1800%Q |};
     TaskWeaver.taskManager := None;
     TaskWeaver.heartbeatIntervalMs := None;
     TaskWeaver.enableDecomposition := Some false;
     TaskWeaver.onTrigger := true;
     TaskWeaver.onTaskComplete := true |}.

Definition weaver_eager : TaskWeaver.t :=
  TaskWeaver.addTask (sample "a" low pending None) 0
    (TaskWeaver.new eager_config weaver_registry).

(** A manager configured with a negative number of retries, which the
    constructor keeps, holding one pending task [a]; nothing in flight. *)
Definition negative_retry_config : PartialTaskManagerConfig :=
  {| opt_maxConcurrent := None; opt_timeoutSeconds := None;
     opt_maxRetries := Some (-1)%Z |}.

Definition store_negative : TaskManager :=
  addTask (sample "a" low pending None) 0 (new_TaskManager negative_retry_config).

Definition system_negative : System :=
  {| manager := store_negative; inflight := [] |}.

(** ** Sorting *)

Section Sorting.
Context {A : Type} (rank : A -> Z).

Lemma sort_insert_In x y l :
  In y (sort_insert (by_rank rank) x l) <-> y = x \/ In y l.
Proof.
  induction l as [|z l IH]; simpl.
  - intuition congruence.
  - destruct (by_rank rank x z <=? 0)%Z; simpl; [intuition congruence|].
    rewrite IH. intuition congruence.
Qed.

Lemma Array_sort_In y l : In y (Array_sort (by_rank rank) l) <-> In y l.
Proof.
  induction l as [|x l IH]; simpl; [reflexivity|].
  rewrite sort_insert_In, IH. intuition congruence.
Qed.

Lemma sort_insert_Permutation x l : Permutation (sort_insert (by_rank rank) x l) (x :: l).
Proof.
  induction l as [|z l IH]; simpl; [reflexivity|].
  destruct (by_rank rank x z <=? 0)%Z; [reflexivity|].
  rewrite IH. apply perm_swap.
Qed.

Lemma Array_sort_Permutation l : Permutation (Array_sort (by_rank rank) l) l.
Proof.
  induction l as [|x l IH]; simpl; [reflexivity|].
  rewrite sort_insert_Permutation. now constructor.
Qed.

Lemma sort_insert_sorted x l :
  StronglySorted (fun a b => (rank a <= rank b)%Z) l ->
  StronglySorted (fun a b => (rank a <= rank b)%Z) (sort_insert (by_rank rank) x l).
Proof.
  induction 1 as [|z l Hl IH Hz]; simpl.
  - repeat constructor.
  - destruct (Z.leb_spec (by_rank rank x z) 0) as [Hle|Hgt]; unfold by_rank in *.
    + constructor; [now constructor|].
      constructor; [lia|].
      rewrite Forall_forall in *. intros y Hy. specialize (Hz y Hy). lia.
    + constructor; [exact IH|].
      rewrite Forall_forall in *. intros y Hy.
      apply sort_insert_In in Hy as [->|Hy]; [lia|now apply Hz].
Qed.

Lemma Array_sort_sorted l :
  StronglySorted (fun a b => (rank a <= rank b)%Z) (Array_sort (by_rank rank) l).
Proof.
  induction l as [|x l IH]; simpl; [constructor|].
  now apply sort_insert_sorted.
Qed.

(** Stability: the elements of one rank keep their order. *)
Lemma sort_insert_stable r x l :
  List.filter (fun a => (rank a =? r)%Z) (sort_insert (by_rank rank) x l)
  = List.filter (fun a => (rank a =? r)%Z) (x :: l).
Proof.
  induction l as [|z l IH]; [reflexivity|].
  simpl sort_insert.
  destruct (Z.leb_spec (by_rank rank x z) 0) as [Hle|Hgt]; [reflexivity|].
  unfold by_rank in Hgt.
  change (List.filter (fun a => (rank a =? r)%Z) (z :: sort_insert (by_rank rank) x l))
    with (if (rank z =? r)%Z
          then z :: List.filter (fun a => (rank a =? r)%Z) (sort_insert (by_rank rank) x l)
          else List.filter (fun a => (rank a =? r)%Z) (sort_insert (by_rank rank) x l)).
  rewrite IH. simpl.
  destruct (Z.eqb_spec (rank z) r), (Z.eqb_spec (rank x) r); try reflexivity; lia.
Qed.

Lemma Array_sort_stable r l :
  List.filter (fun a => (rank a =? r)%Z) (Array_sort (by_rank rank) l)
  = List.filter (fun a => (rank a =? r)%Z) l.
Proof.
  induction l as [|x l IH]; [reflexivity|].
  simpl Array_sort. rewrite sort_insert_stable. simpl. now rewrite IH.
Qed.
End Sorting.

(** ** The store *)

Lemma Map_get_In {V : Type} k (v : V) l : Map_get k l = Some v -> In (k, v) l.
Proof.
  induction l as [|[k' v'] l IH]; simpl; [discriminate|].
  destruct (String.eqb_spec k k') as [->|Hne].
  - intros [= ->]. now left.
  - intros H. right. now apply IH.
Qed.

Lemma getTask_Some m taskId task :
  getTask m taskId = Some task <->
  exists r, Map_get taskId (tasks m) = Some r /\ heap m !! r = Some task.
Proof.
  unfold getTask. destruct (Map_get taskId (tasks m)) as [r|].
  - split; [eauto|]. now intros (r' & [= <-] & H).
  - split; [discriminate|]. now intros (r' & [=] & _).
Qed.

Lemma In_values m task :
  In task (values m) <-> exists k r, In (k, r) (tasks m) /\ heap m !! r = Some task.
Proof.
  unfold values. rewrite <- list_elem_of_In, list_elem_of_omap. split.
  - intros ([k r] & Hin & H). apply list_elem_of_In in Hin. eauto.
  - intros (k & r & Hin & H). exists (k, r). now rewrite list_elem_of_In.
Qed.

Lemma getTask_In_values m taskId task :
  getTask m taskId = Some task -> In task (values m).
Proof.
  rewrite getTask_Some, In_values. intros (r & Hget & H).
  eauto using Map_get_In.
Qed.

Lemma TaskStatus_eqb_eq a b : TaskStatus_eqb a b = true <-> a = b.
Proof. destruct a, b; simpl; split; congruence. Qed.

Lemma TaskPriority_eqb_eq a b : TaskPriority_eqb a b = true <-> a = b.
Proof. destruct a, b; simpl; split; congruence. Qed.

Lemma Qltb_lt a b : Qltb a b = true <-> (a < b)%Q.
Proof.
  unfold Qltb. rewrite negb_true_iff, <- not_true_iff_false, Qle_bool_iff.
  split; [apply Qnot_le_lt | apply Qlt_not_le].
Qed.

Lemma Qltb_ge a b : Qltb a b = false <-> (b <= a)%Q.
Proof.
  unfold Qltb. now rewrite negb_false_iff, Qle_bool_iff.
Qed.

(** ** The filter of [getPendingTasks] *)

Lemma is_eligible_true m now task :
  is_eligible m now task = true <->
  status task = pending
  /\ dependencies_completed m task
  /\ not_yet_due now task = false.
Proof.
  unfold is_eligible, dependencies_completed.
  destruct (TaskStatus_eqb (status task) pending) eqn:Hs; simpl.
  2: { split; [discriminate|]. intros (H & _). apply TaskStatus_eqb_eq in H. congruence. }
  apply TaskStatus_eqb_eq in Hs.
  destruct (dependsOn task) as [deps|].
  - destruct (forallb (dependency_met m) deps) eqn:Hd; simpl.
    + rewrite forallb_forall in Hd.
      destruct (not_yet_due now task); split; try tauto; try discriminate;
        try (intros (_ & _ & [=])).
      intros _. repeat split; trivial. intros ds d [= <-] Hin.
      specialize (Hd d Hin). unfold dependency_met in Hd.
      destruct (getTask m d) as [dep|]; [|discriminate].
      exists dep. now rewrite <- TaskStatus_eqb_eq.
    + split; [discriminate|]. intros (_ & Hall & _). exfalso.
      apply not_true_iff_false in Hd. apply Hd, forallb_forall. intros d Hin.
      destruct (Hall deps d eq_refl Hin) as (dep & Hget & Hc).
      unfold dependency_met. rewrite Hget. now apply TaskStatus_eqb_eq.
  - destruct (not_yet_due now task); split; try tauto; try discriminate;
      try (intros (_ & _ & [=])).
    intros _. repeat split; trivial. discriminate.
Qed.

Lemma In_getPendingTasks m now task :
  In task (getPendingTasks m now) <->
  In task (values m) /\ is_eligible m now task = true.
Proof.
  unfold getPendingTasks, by_priority.
  rewrite (Array_sort_In (fun t => priorityOrder (priority t))).
  apply filter_In.
Qed.

(** ** Dependency gating *)

(** C1. A task with a dependency that is missing from the store or not
    completed is never in the result of [getPendingTasks], whatever its
    priority and whatever else the store holds. *)
Theorem getPendingTasks_excludes_unmet_dependsOn m now task deps depId :
  dependsOn task = Some deps ->
  In depId deps ->
  (forall dep, getTask m depId = Some dep -> status dep <> completed) ->
  ~ In task (getPendingTasks m now).
Proof.
  intros Hdeps Hin Hunmet Hpending.
  apply In_getPendingTasks in Hpending as [_ Hel].
  apply is_eligible_true in Hel as (_ & Hall & _).
  destruct (Hall deps depId Hdeps Hin) as (dep & Hget & Hc).
  exact (Hunmet dep Hget Hc).
Qed.

Lemma getPendingTasks_excludes_unmet_dependsOn_witness :
  In (sample "b" high pending (Some ["a"])) (values store_ab)
  /\ ~ In (sample "b" high pending (Some ["a"])) (getPendingTasks store_ab 0).
Proof.
  split; [right; left; reflexivity|].
  apply (getPendingTasks_excludes_unmet_dependsOn store_ab 0%Z _ ["a"] "a").
  - reflexivity.
  - left; reflexivity.
  - intros dep [= <-]. discriminate.
Defined.

(** ** Priority order *)

Lemma has_priority_rank p task :
  has_priority p task = (priorityOrder (priority task) =? priorityOrder p)%Z.
Proof. unfold has_priority. now destruct (priority task), p. Qed.

(** C2. The result of [getPendingTasks] is ordered by the rank
    critical(0), high(1), medium(2), low(3), periodic(4); tasks of one
    priority keep the order in which the store iterates them, which is
    insertion order; and pending tasks a (low), b (critical), c (high)
    without dependencies, inserted in that order, come out as b, c, a. *)
Theorem getPendingTasks_priority_order :
  (forall m now,
      StronglySorted priority_le (getPendingTasks m now)
      /\ forall p,
          List.filter (has_priority p) (getPendingTasks m now)
          = List.filter (has_priority p)
              (List.filter (is_eligible m now) (values m)))
  /\ (forall cfg a b c ta tb tc now,
         map id
           (getPendingTasks
              (addTask (pending_task "c" high c) tc
                 (addTask (pending_task "b" critical b) tb
                    (addTask (pending_task "a" low a) ta
                       (new_TaskManager cfg)))) now)
         = ["b"; "c"; "a"]).
Proof.
  split.
  - intros m now. split.
    + apply (Array_sort_sorted (fun t => priorityOrder (priority t))).
    + intros p. unfold getPendingTasks, by_priority.
      rewrite !(filter_ext _ _ (has_priority_rank p)).
      apply (Array_sort_stable (fun t => priorityOrder (priority t))).
  - intros. reflexivity.
Qed.

(** ** Concurrency guard *)

(** C4. [executeNext] called while the running count equals
    [maxConcurrent] returns null and changes nothing: the store, the
    running set and the executions in flight stay as they are. *)
Theorem executeNext_at_capacity s now :
  getRunningCount (manager s) = maxConcurrent (config (manager s)) ->
  executeNext (manager s) now = (manager s, Returned None)
  /\ call_executeNext s now = s.
Proof.
  intros Hfull. unfold call_executeNext, executeNext.
  rewrite Hfull, Z.geb_leb, Z.leb_refl. simpl.
  split; [reflexivity|]. now destruct s.
Qed.

Lemma executeNext_at_capacity_witness :
  executeNext store_full 0 = (store_full, Returned None)
  /\ call_executeNext {| manager := store_full; inflight := [] |} 0
     = {| manager := store_full; inflight := [] |}.
Proof.
  apply (executeNext_at_capacity {| manager := store_full; inflight := [] |} 0%Z).
  reflexivity.
Defined.

(** ** Decomposition *)

(** C9. When no registered strategy matches the description of a task
    (its name when the description is missing or empty), [decompose]
    returns the task alone and unchanged. *)
Theorem decompose_without_match d task :
  (forall strategy,
      In strategy (strategies d) ->
      DecompositionStrategy.matches strategy
        (string_or (description task) (name task)) = false) ->
  decompose d task = [task].
Proof.
  unfold decompose. generalize (string_or (description task) (name task)).
  intros text. induction (strategies d) as [|strategy l IH]; intros Hno.
  - reflexivity.
  - simpl. rewrite (Hno strategy (or_introl eq_refl)).
    apply IH. intros s' Hin. apply Hno. now right.
Qed.

Lemma decompose_without_match_witness :
  decompose plus_registry (sample "a" low pending None)
  = [sample "a" low pending None].
Proof.
  apply decompose_without_match.
  intros strategy [<-|[]]. reflexivity.
Defined.

(** ** Idle trigger *)

Lemma cooling_down_false d now :
  cooling_down d now = false <->
  forall last,
    lastTriggerTime d = Some last ->
    (cooldownSeconds (idle_config d) <= elapsed_seconds now last)%Q.
Proof.
  unfold cooling_down. destruct (lastTriggerTime d) as [last|].
  - rewrite Qltb_ge. split; [now intros H ? [= <-]|auto].
  - split; [discriminate|reflexivity].
Qed.

Lemma silent_enough (silence : option Q) threshold :
  match silence with
  | Some silent => Qltb silent threshold
  | None => false
  end = false <->
  forall silent, silence = Some silent -> (threshold <= silent)%Q.
Proof.
  destruct silence as [silent|].
  - rewrite Qltb_ge. split; [now intros H ? [= <-]|auto].
  - split; [discriminate|reflexivity].
Qed.

Lemma cooling_down_markTriggered d t now :
  cooling_down (markTriggered d t) now
  = Qltb (elapsed_seconds now t) (cooldownSeconds (idle_config d)).
Proof. reflexivity. Qed.

(** C8. With [systemIdleSeconds] supplied, [shouldTrigger] is true
    exactly when the cooldown since the last [markTriggered] has elapsed
    (or nothing was ever triggered), the system idle time reaches the
    idle threshold, the user silence, when provided, reaches its
    threshold, and [hasActiveTasks] is not set. With thresholds 600 and
    1800, an idle time of 700 and no active task: true before any
    trigger, false 10 seconds after [markTriggered], true again from
    1800 seconds after it. *)
Theorem shouldTrigger_exactly :
  (forall d now probe state idle,
      systemIdleSeconds state = Some idle ->
      shouldTrigger d now probe state = true <->
      (forall last,
          lastTriggerTime d = Some last ->
          (cooldownSeconds (idle_config d) <= elapsed_seconds now last)%Q)
      /\ (idleThresholdSeconds (idle_config d) <= idle)%Q
      /\ (forall silent,
             userSilentSeconds state = Some silent ->
             (userSilentThresholdSeconds (idle_config d) <= silent)%Q)
      /\ default false (hasActiveTasks state) = false)
  /\ (forall probe activity t0 t1 t2,
         shouldTrigger scenario_detector t0 probe (scenario_state activity) = true
         /\ shouldTrigger (markTriggered scenario_detector t1) (t1 + 10 * 1000)
              probe (scenario_state activity) = false
         /\ ((t1 + 1800 * 1000 <= t2)%Z ->
             shouldTrigger (markTriggered scenario_detector t1) t2
               probe (scenario_state activity) = true)).
Proof.
  split.
  - intros d now probe state idle Hidle.
    rewrite <- cooling_down_false, <- Qltb_ge, <- silent_enough.
    unfold shouldTrigger. rewrite Hidle. simpl default at 1.
    destruct (cooling_down d now), (Qltb idle _), (userSilentSeconds state) as [silent|];
      try destruct (Qltb silent _);
      destruct (default false (hasActiveTasks state));
      simpl; intuition congruence.
  - intros probe activity t0 t1 t2. split; [reflexivity|]. split.
    + unfold shouldTrigger. rewrite cooling_down_markTriggered.
      assert (Hc : Qltb (elapsed_seconds (t1 + 10 * 1000) t1)
                     (cooldownSeconds (idle_config scenario_detector)) = true).
      { apply Qltb_lt. unfold elapsed_seconds, Qlt, Qdiv, Qmult, inject_Z.
        simpl. lia. }
      now rewrite Hc.
    + intros Hlate. unfold shouldTrigger. rewrite cooling_down_markTriggered.
      assert (Hc : Qltb (elapsed_seconds t2 t1)
                     (cooldownSeconds (idle_config scenario_detector)) = false).
      { apply Qltb_ge. unfold elapsed_seconds, Qle, Qdiv, Qmult, inject_Z.
        simpl. lia. }
      now rewrite Hc.
Qed.

Lemma shouldTrigger_exactly_witness :
  shouldTrigger (markTriggered scenario_detector 0) 2000000 0
    (scenario_state None) = true <->
  (forall last,
      lastTriggerTime (markTriggered scenario_detector 0) = Some last ->
      (cooldownSeconds (idle_config (markTriggered scenario_detector 0))
       <= elapsed_seconds 2000000 last)%Q)
  /\ (idleThresholdSeconds (idle_config (markTriggered scenario_detector 0)) <= 700)%Q
  /\ (forall silent,
         userSilentSeconds (scenario_state None) = Some silent ->
         (userSilentThresholdSeconds
            (idle_config (markTriggered scenario_detector 0)) <= silent)%Q)
  /\ default false (hasActiveTasks (scenario_state None)) = false.
Proof.
  apply (proj1 shouldTrigger_exactly). reflexivity.
Defined.

(** ** Execution: the retry loop *)

Lemma executeTask_loop_continue m ex :
  (ex_retries ex <= maxRetries (config m))%Z ->
  executeTask_loop m ex = (m, Awaiting ex).
Proof.
  intros H. unfold executeTask_loop.
  now destruct (Z.leb_spec (ex_retries ex) (maxRetries (config m))); [|lia].
Qed.

Lemma executeTask_loop_exit m ex :
  (maxRetries (config m) < ex_retries ex)%Z ->
  executeTask_loop m ex
  = (with_runningTasks (Set_delete (ex_taskId ex) (runningTasks m))
       (assign (ex_task ex) (set_status failed) m),
     Returned (Some {| success := false; output := None;
                       error := ex_lastError ex; metrics := None |})).
Proof.
  intros H. unfold executeTask_loop.
  now destruct (Z.leb_spec (ex_retries ex) (maxRetries (config m))); [lia|].
Qed.

Lemma resume_failure m ex o now :
  is_failure o = true ->
  executeTask_resume m ex o now
  = executeTask_loop m
      {| ex_taskId := ex_taskId ex; ex_task := ex_task ex;
         ex_retries := ex_retries ex + 1;
         ex_lastError := failure_message (config m) o |}.
Proof. now destruct o. Qed.

Lemma settle_all_cons m ex o now outs :
  settle_all m ex ((o, now) :: outs)
  = run_to (executeTask_resume m ex o now) outs.
Proof.
  simpl. now destruct (executeTask_resume m ex o now) as [m' [v|ex']].
Qed.

Lemma run_to_awaiting m ex outs : run_to (m, Awaiting ex) outs = settle_all m ex outs.
Proof. reflexivity. Qed.

Lemma run_to_nil c : run_to c [] = c.
Proof. now destruct c as [m [v|ex]]. Qed.

Lemma settle_all_app m ex l1 l2 :
  settle_all m ex (l1 ++ l2) = run_to (settle_all m ex l1) l2.
Proof.
  revert m ex. induction l1 as [|[o now] l1 IH]; intros m ex; simpl.
  - reflexivity.
  - destruct (executeTask_resume m ex o now) as [m' [v|ex']]; [reflexivity|].
    apply IH.
Qed.

(** Failed attempts within the budget leave the manager as it is and
    the execution awaiting one more attempt. *)
Lemma settle_all_failures fails : forall m ex,
  all_failures fails = true ->
  (ex_retries ex + Z.of_nat (length fails) <= maxRetries (config m))%Z ->
  settle_all m ex fails = (m, Awaiting (after_failures (config m) ex fails)).
Proof.
  induction fails as [|[o now] fails IH]; intros m ex Hall Hlen.
  - destruct ex. unfold after_failures. simpl. now rewrite Z.add_0_r.
  - simpl in Hall. apply andb_true_iff in Hall as [Ho Hall].
    simpl length in Hlen. simpl settle_all.
    rewrite (resume_failure _ _ _ _ Ho), executeTask_loop_continue by (simpl; lia).
    rewrite IH by (trivial; simpl; lia).
    unfold after_failures, last_error. simpl. do 3 f_equal. lia.
Qed.

(** ** Execution: what the task object becomes *)

Lemma getTask_assign m taskId r f task :
  Map_get taskId (tasks m) = Some r ->
  heap m !! r = Some task ->
  getTask (assign r f m) taskId = Some (f task).
Proof.
  intros Hget Hr. unfold getTask, assign. simpl. rewrite Hget.
  now rewrite list_lookup_alter_eq, Hr.
Qed.

Lemma executeTask_start m taskId task :
  getTask m taskId = Some task ->
  exists r,
    Map_get taskId (tasks m) = Some r
    /\ heap m !! r = Some task
    /\ executeTask m taskId
       = executeTask_loop
           (with_runningTasks (Set_add taskId (runningTasks m))
              (assign r (set_status running) m))
           {| ex_taskId := taskId; ex_task := r;
              ex_retries := 0; ex_lastError := None |}.
Proof.
  intros Hget. apply getTask_Some in Hget as (r & Hget & Hr).
  exists r. repeat split; trivial.
  unfold executeTask. now rewrite Hget, Hr.
Qed.

Lemma resume_resolved m ex result now task :
  heap m !! ex_task ex = Some task ->
  exists m',
    executeTask_resume m ex (Resolved result) now = (m', Returned (Some result))
    /\ heap m' !! ex_task ex
       = Some (set_lastRunAt now (set_status (settled_status result task) task))
    /\ tasks m' = tasks m
    /\ config m' = config m
    /\ runningTasks m' = Set_delete (ex_taskId ex) (runningTasks m).
Proof.
  intros Hr. eexists. split; [reflexivity|].
  unfold settled_status, is_periodic, assign. simpl.
  rewrite !list_lookup_alter_eq, Hr. simpl.
  destruct (success result); simpl.
  - destruct (TaskPriority_eqb (priority task) periodic); simpl;
      rewrite ?list_lookup_alter_eq, Hr; simpl; auto.
  - rewrite !list_lookup_alter_eq, Hr. auto.
Qed.

(** ** Execution: whole runs *)

Lemma run_to_app c l1 l2 : run_to c (l1 ++ l2) = run_to (run_to c l1) l2.
Proof. destruct c as [m [v|ex]]; simpl; [reflexivity|apply settle_all_app]. Qed.

Lemma executeTask_run_app m taskId l1 l2 :
  executeTask_run m taskId (l1 ++ l2) = run_to (executeTask_run m taskId l1) l2.
Proof. apply run_to_app. Qed.

Lemma all_failures_app l1 l2 :
  all_failures (l1 ++ l2) = all_failures l1 && all_failures l2.
Proof. apply forallb_app. Qed.

(** After [n <= maxRetries] failed attempts the task is running and
    attempt [n + 1] is in flight. *)
Lemma executeTask_run_failures m taskId task fails :
  getTask m taskId = Some task ->
  all_failures fails = true ->
  (Z.of_nat (length fails) <= maxRetries (config m))%Z ->
  exists r,
    Map_get taskId (tasks m) = Some r
    /\ heap m !! r = Some task
    /\ executeTask_run m taskId fails
       = (started m taskId r,
          Awaiting (after_failures (config m) (first_attempt taskId r) fails)).
Proof.
  intros Hget Hall Hlen.
  destruct (executeTask_start m taskId task Hget) as (r & Hmap & Hr & Hstart).
  exists r. repeat split; trivial.
  unfold executeTask_run. rewrite Hstart.
  fold (started m taskId r). fold (first_attempt taskId r).
  rewrite executeTask_loop_continue by (simpl; lia).
  simpl run_to. now rewrite settle_all_failures by (trivial; simpl; lia).
Qed.

Lemma getTask_started m taskId r task :
  Map_get taskId (tasks m) = Some r ->
  heap m !! r = Some task ->
  getTask (started m taskId r) taskId = Some (set_status running task).
Proof. intros Hmap Hr. now apply (getTask_assign m taskId r). Qed.

(** An attempt that is fulfilled ends the execution with its result. *)
Lemma executeTask_run_resolved m taskId task fails result now rest :
  getTask m taskId = Some task ->
  all_failures fails = true ->
  (Z.of_nat (length fails) <= maxRetries (config m))%Z ->
  exists m',
    executeTask_run m taskId (fails ++ (Resolved result, now) :: rest)
    = (m', Returned (Some result))
    /\ getTask m' taskId
       = Some (set_lastRunAt now (set_status (settled_status result task) task))
    /\ tasks m' = tasks m
    /\ config m' = config m
    /\ runningTasks m' = Set_delete taskId (Set_add taskId (runningTasks m)).
Proof.
  intros Hget Hall Hlen.
  destruct (executeTask_run_failures m taskId task fails Hget Hall Hlen)
    as (r & Hmap & Hr & Hrun).
  rewrite executeTask_run_app, Hrun, run_to_awaiting.
  set (ex := after_failures (config m) (first_attempt taskId r) fails).
  destruct (resume_resolved (started m taskId r) ex result now
              (set_status running task)) as (m' & Hres & Hheap & Ht & Hc & Hrt).
  { unfold started, assign. simpl. now rewrite list_lookup_alter_eq, Hr. }
  exists m'. rewrite settle_all_cons, Hres. repeat split; trivial.
  unfold getTask. rewrite Ht. simpl. rewrite Hmap. exact Hheap.
Qed.

(** When [1 + maxRetries] attempts have failed the task is marked
    failed; nothing else of the object changes. *)
Lemma executeTask_run_exhausted m taskId task fails o now :
  getTask m taskId = Some task ->
  all_failures (fails ++ [(o, now)]) = true ->
  Z.of_nat (length fails) = maxRetries (config m) ->
  exists m',
    executeTask_run m taskId (fails ++ [(o, now)])
    = (m', Returned (Some (failure_result (failure_message (config m) o))))
    /\ getTask m' taskId = Some (set_status failed task)
    /\ tasks m' = tasks m
    /\ config m' = config m
    /\ runningTasks m' = Set_delete taskId (Set_add taskId (runningTasks m)).
Proof.
  intros Hget Hall Hlen.
  rewrite all_failures_app in Hall. apply andb_true_iff in Hall as [Hall Ho].
  simpl in Ho. rewrite andb_true_r in Ho.
  destruct (executeTask_run_failures m taskId task fails Hget Hall ltac:(lia))
    as (r & Hmap & Hr & Hrun).
  rewrite executeTask_run_app, Hrun, run_to_awaiting.
  rewrite settle_all_cons, run_to_nil.
  rewrite (resume_failure _ _ _ _ Ho), executeTask_loop_exit by (simpl; lia).
  eexists. split; [reflexivity|]. repeat split.
  unfold getTask, started, assign. simpl. rewrite Hmap.
  now rewrite !list_lookup_alter_eq, Hr.
Qed.

(** ** Periodic tasks *)

Lemma loop_never_completed m ex :
  never_completed (ex_task ex) m ->
  never_completed (ex_task ex) (fst (executeTask_loop m ex))
  /\ tasks (fst (executeTask_loop m ex)) = tasks m
  /\ forall ex', snd (executeTask_loop m ex) = Awaiting ex' ->
                 ex_task ex' = ex_task ex.
Proof.
  intros (t & Hr & Hp & Hs). unfold executeTask_loop.
  destruct (ex_retries ex <=? maxRetries (config m))%Z; simpl.
  - split; [now exists t|]. split; [reflexivity|]. now intros ex' [= <-].
  - split; [|split; [reflexivity|discriminate]].
    exists (set_status failed t). simpl. rewrite list_lookup_alter_eq, Hr.
    repeat split; trivial. discriminate.
Qed.

Lemma resume_never_completed m ex o now :
  never_completed (ex_task ex) m ->
  never_completed (ex_task ex) (fst (executeTask_resume m ex o now))
  /\ tasks (fst (executeTask_resume m ex o now)) = tasks m
  /\ forall ex', snd (executeTask_resume m ex o now) = Awaiting ex' ->
                 ex_task ex' = ex_task ex.
Proof.
  intros Hinv. destruct (is_failure o) eqn:Ho.
  - rewrite (resume_failure _ _ _ _ Ho).
    apply (loop_never_completed m
             {| ex_taskId := ex_taskId ex; ex_task := ex_task ex;
                ex_retries := ex_retries ex + 1;
                ex_lastError := failure_message (config m) o |}).
    exact Hinv.
  - destruct o as [result| |]; try discriminate.
    destruct Hinv as (t & Hr & Hp & Hs).
    destruct (resume_resolved m ex result now t Hr) as (m' & -> & Hh & Ht & _).
    simpl. split; [|split; [exact Ht|discriminate]].
    eexists. split; [exact Hh|]. split; [exact Hp|].
    unfold settled_status. simpl. rewrite Hp. simpl.
    now destruct (success result).
Qed.

Lemma settle_all_never_completed outs : forall m ex,
  never_completed (ex_task ex) m ->
  never_completed (ex_task ex) (fst (settle_all m ex outs))
  /\ tasks (fst (settle_all m ex outs)) = tasks m.
Proof.
  induction outs as [|[o now] outs IH]; intros m ex Hinv; [now split|].
  simpl. destruct (resume_never_completed m ex o now Hinv) as (Hinv' & Ht & Hex).
  destruct (executeTask_resume m ex o now) as [m' [v|ex']]; simpl in *.
  - now split.
  - rewrite <- (Hex ex' eq_refl) in *.
    destruct (IH m' ex' Hinv') as [H1 H2]. split; [exact H1|congruence].
Qed.

(** The executor never leaves a periodic task completed. *)
Lemma periodic_never_completed m taskId task outs task' :
  getTask m taskId = Some task ->
  priority task = periodic ->
  getTask (fst (executeTask_run m taskId outs)) taskId = Some task' ->
  status task' <> completed.
Proof.
  intros Hget Hp.
  destruct (executeTask_start m taskId task Hget) as (r & Hmap & Hr & Hstart).
  unfold executeTask_run. rewrite Hstart.
  fold (started m taskId r). fold (first_attempt taskId r).
  assert (Hinv : never_completed r (started m taskId r)).
  { exists (set_status running task). unfold started, assign. simpl.
    rewrite list_lookup_alter_eq, Hr. repeat split; trivial. discriminate. }
  destruct (loop_never_completed (started m taskId r) (first_attempt taskId r) Hinv)
    as (Hinv' & Ht & Hex).
  destruct (executeTask_loop (started m taskId r) (first_attempt taskId r))
    as [m' [v|ex']]; simpl in *.
  - destruct Hinv' as (t & Hr' & _ & Hs). unfold getTask. rewrite Ht, Hmap, Hr'.
    now intros [= <-].
  - rewrite <- (Hex ex' eq_refl) in *.
    destruct (settle_all_never_completed outs m' ex' Hinv')
      as ((t & Hr' & _ & Hs) & Ht').
    unfold getTask. rewrite Ht', Ht, Hmap, Hr'. now intros [= <-].
Qed.

Lemma not_yet_due_true now task interval last :
  priority task = periodic ->
  intervalSeconds task = Some interval ->
  lastRunAt task = Some last ->
  (last <= now)%Z ->
  (elapsed_seconds now last < interval)%Q ->
  not_yet_due now task = true.
Proof.
  intros Hp Hi Hl Hle Hlt. unfold not_yet_due. rewrite Hp, Hi, Hl.
  apply andb_true_iff. split; [|now apply Qltb_lt].
  unfold Q_truthy. apply negb_true_iff, not_true_iff_false.
  rewrite Qeq_bool_iff. intros H0. rewrite H0 in Hlt.
  revert Hlt. unfold elapsed_seconds, Qlt, Qdiv, Qmult, inject_Z. simpl. lia.
Qed.

Lemma not_yet_due_false now task :
  (forall interval last,
      intervalSeconds task = Some interval ->
      lastRunAt task = Some last ->
      (interval <= elapsed_seconds now last)%Q) ->
  not_yet_due now task = false.
Proof.
  intros H. unfold not_yet_due.
  destruct (priority task); trivial.
  destruct (intervalSeconds task) as [interval|]; trivial.
  destruct (lastRunAt task) as [last|]; trivial.
  apply andb_false_iff. right. apply Qltb_ge. now apply H.
Qed.

(** C3. A periodic task whose execution succeeds is left pending, with
    [lastRunAt] stamped, and no execution ever leaves a periodic task
    completed. From then on [getPendingTasks] leaves the task out while
    less than [intervalSeconds] have elapsed since [lastRunAt], and
    returns it once the interval has elapsed, provided its dependencies
    are completed. A pending periodic task that has never run is
    returned as soon as its dependencies are completed. *)
Theorem periodic_task_rearms :
  (forall m taskId task fails result ran rest,
      getTask m taskId = Some task ->
      priority task = periodic ->
      all_failures fails = true ->
      (Z.of_nat (length fails) <= maxRetries (config m))%Z ->
      success result = true ->
      exists m' task',
        executeTask_run m taskId (fails ++ (Resolved result, ran) :: rest)
        = (m', Returned (Some result))
        /\ getTask m' taskId = Some task'
        /\ task' = set_lastRunAt ran (set_status pending task)
        /\ forall now,
            (forall interval,
                intervalSeconds task = Some interval ->
                (ran <= now)%Z ->
                (elapsed_seconds now ran < interval)%Q ->
                ~ In task' (getPendingTasks m' now))
            /\ ((forall interval,
                    intervalSeconds task = Some interval ->
                    (interval <= elapsed_seconds now ran)%Q) ->
                dependencies_completed m' task' ->
                In task' (getPendingTasks m' now)))
  /\ (forall m taskId task outs task',
         getTask m taskId = Some task ->
         priority task = periodic ->
         getTask (fst (executeTask_run m taskId outs)) taskId = Some task' ->
         status task' <> completed)
  /\ (forall m now task,
         In task (values m) ->
         priority task = periodic ->
         status task = pending ->
         lastRunAt task = None ->
         dependencies_completed m task ->
         In task (getPendingTasks m now)).
Proof.
  split; [|split].
  - intros m taskId task fails result ran rest Hget Hp Hall Hlen Hok.
    destruct (executeTask_run_resolved m taskId task fails result ran rest
                Hget Hall Hlen) as (m' & Hrun & Hget' & _).
    unfold settled_status in Hget'. rewrite Hok, Hp in Hget'. simpl in Hget'.
    exists m', (set_lastRunAt ran (set_status pending task)).
    repeat split; trivial.
    + intros interval Hi Hle Hlt Hin.
      apply In_getPendingTasks in Hin as [_ Hel].
      apply is_eligible_true in Hel as (_ & _ & Hdue).
      rewrite (not_yet_due_true now _ interval ran) in Hdue; trivial.
      discriminate.
    + intros Helapsed Hdeps. apply In_getPendingTasks.
      split; [now apply (getTask_In_values m' taskId)|].
      apply is_eligible_true. repeat split; trivial.
      apply not_yet_due_false. intros interval last Hi [= <-].
      now apply Helapsed.
  - intros m taskId task outs task'. apply periodic_never_completed.
  - intros m now task Hin Hp Hs Hl Hdeps. apply In_getPendingTasks.
    split; trivial. apply is_eligible_true. repeat split; trivial.
    apply not_yet_due_false. intros interval last _. rewrite Hl. discriminate.
Qed.

Lemma periodic_task_rearms_witness :
  exists m' task',
    executeTask_run store_hourly "p"
      [(Rejected "busy", 500%Z); (Resolved succeeded, 1000%Z)]
    = (m', Returned (Some succeeded))
    /\ getTask m' "p" = Some task'
    /\ status task' = pending
    /\ lastRunAt task' = Some 1000%Z
    /\ ~ In task' (getPendingTasks m' 3600999)
    /\ In task' (getPendingTasks m' 3601000).
Proof.
  destruct (proj1 periodic_task_rearms store_hourly "p" hourly
              [(Rejected "busy", 500%Z)] succeeded 1000%Z [])
    as (m' & task' & Hrun & Hget & -> & Hnow); try reflexivity.
  - simpl. lia.
  - exists m', (set_lastRunAt 1000 (set_status pending hourly)).
    repeat split; trivial.
    + apply (proj1 (Hnow 3600999%Z) 3600%Q); reflexivity || lia.
    + apply (proj2 (Hnow 3601000%Z)).
      * intros interval [= <-]. discriminate.
      * intros deps depId [=].
Defined.

(** ** Retries *)

Lemma first_resolved outs :
  all_failures outs = false ->
  exists fails result now rest,
    outs = fails ++ (Resolved result, now) :: rest
    /\ all_failures fails = true.
Proof.
  induction outs as [|[o now] outs IH]; [discriminate|].
  destruct o as [result|message|].
  - intros _. now exists [], result, now, outs.
  - intros H. destruct (IH H) as (fails & result & now' & rest & -> & Hall).
    now exists ((Rejected message, now) :: fails), result, now', rest.
  - intros H. destruct (IH H) as (fails & result & now' & rest & -> & Hall).
    now exists ((TimedOut, now) :: fails), result, now', rest.
Qed.

(** With a negative [maxRetries] the loop is never entered. *)
Lemma executeTask_run_no_budget m taskId task outs :
  getTask m taskId = Some task ->
  (maxRetries (config m) < 0)%Z ->
  exists m',
    executeTask_run m taskId outs = (m', Returned (Some (failure_result None))).
Proof.
  intros Hget Hneg.
  destruct (executeTask_start m taskId task Hget) as (r & _ & _ & Hstart).
  unfold executeTask_run. rewrite Hstart, executeTask_loop_exit by (simpl; lia).
  eexists. reflexivity.
Qed.

(** Every execution returns a result once [1 + maxRetries] attempts
    have settled, however they settle. *)
Lemma executeTask_run_returns m taskId task outs :
  getTask m taskId = Some task ->
  (maxRetries (config m) < Z.of_nat (length outs))%Z ->
  exists m' result,
    executeTask_run m taskId outs = (m', Returned (Some result)).
Proof.
  intros Hget Hlen.
  destruct (Z.neg_nonneg_cases (maxRetries (config m))) as [Hneg|Hpos].
  { destruct (executeTask_run_no_budget m taskId task outs Hget Hneg) as (m' & H).
    eauto. }
  set (n := Z.to_nat (maxRetries (config m))).
  assert (Hn : length (take (S n) outs) = S n) by (apply length_take_le; lia).
  rewrite <- (take_drop (S n) outs).
  destruct (all_failures (take (S n) outs)) eqn:Hall.
  - destruct (exists_last (l := take (S n) outs)) as (fails & [o now] & Heq).
    { intros H0. rewrite H0 in Hn. discriminate. }
    rewrite Heq in Hall, Hn |- *. rewrite length_app in Hn. simpl in Hn.
    destruct (executeTask_run_exhausted m taskId task fails o now Hget Hall)
      as (m' & Hrun & _); [lia|].
    rewrite executeTask_run_app, Hrun. simpl. eauto.
  - destruct (first_resolved _ Hall) as (fails & result & now & rest & Heq & Hf).
    rewrite Heq in Hn |- *. rewrite length_app in Hn. simpl in Hn.
    rewrite <- app_assoc. simpl.
    destruct (executeTask_run_resolved m taskId task fails result now
                (rest ++ drop (S n) outs) Hget Hf) as (m' & Hrun & _); [lia|].
    eauto.
Qed.

(** An attempt fulfilled with [success:false] ends the execution of
    task [a] at once, although two retries are left; a rejected attempt
    is followed by a second one. *)
Lemma unsuccessful_result_is_not_retried :
  maxRetries (config store_retry) = 2%Z
  /\ snd (executeTask_run store_retry "a" [(Resolved unsuccessful, 1000%Z)])
     = Returned (Some unsuccessful)
  /\ status <$> getTask
       (fst (executeTask_run store_retry "a" [(Resolved unsuccessful, 1000%Z)]))
       "a" = Some failed
  /\ snd (executeTask_run store_retry "a" [(Rejected "no", 1000%Z)])
     = Awaiting {| ex_taskId := "a"; ex_task := 0%nat; ex_retries := 1;
                   ex_lastError := Some "no" |}.
Proof. repeat split. Qed.

(** C5, amended. An attempt that throws or times out is retried, up to
    [maxRetries] more attempts; when [1 + maxRetries] attempts have
    failed this way the task is marked failed and a result with
    [success:false] and the last error is returned. An attempt that
    returns a result ends the execution with that result, and a result
    with [success:false] marks the task failed without a retry. No
    failure escapes: every execution ends in a returned result. *)
Theorem retry_then_mark_failed m taskId task :
  getTask m taskId = Some task ->
  (forall fails,
      all_failures fails = true ->
      (Z.of_nat (length fails) <= maxRetries (config m))%Z ->
      exists m' ex,
        executeTask_run m taskId fails = (m', Awaiting ex)
        /\ ex_retries ex = Z.of_nat (length fails)
        /\ getTask m' taskId = Some (set_status running task))
  /\ (forall fails o now,
         all_failures (fails ++ [(o, now)]) = true ->
         Z.of_nat (length fails) = maxRetries (config m) ->
         exists m',
           executeTask_run m taskId (fails ++ [(o, now)])
           = (m', Returned (Some (failure_result (failure_message (config m) o))))
           /\ status <$> getTask m' taskId = Some failed)
  /\ (forall fails result now rest,
         all_failures fails = true ->
         (Z.of_nat (length fails) <= maxRetries (config m))%Z ->
         exists m',
           executeTask_run m taskId (fails ++ (Resolved result, now) :: rest)
           = (m', Returned (Some result))
           /\ status <$> getTask m' taskId = Some (settled_status result task)
           /\ (success result = false -> settled_status result task = failed))
  /\ (forall outs,
         (maxRetries (config m) < Z.of_nat (length outs))%Z ->
         exists m' result,
           executeTask_run m taskId outs = (m', Returned (Some result))).
Proof.
  intros Hget. repeat split.
  - intros fails Hall Hlen.
    destruct (executeTask_run_failures m taskId task fails Hget Hall Hlen)
      as (r & Hmap & Hr & Hrun).
    eexists _, _. split; [exact Hrun|]. split; [simpl; lia|].
    now apply getTask_started.
  - intros fails o now Hall Hlen.
    destruct (executeTask_run_exhausted m taskId task fails o now Hget Hall Hlen)
      as (m' & Hrun & Hget' & _).
    exists m'. now rewrite Hrun, Hget'.
  - intros fails result now rest Hall Hlen.
    destruct (executeTask_run_resolved m taskId task fails result now rest
                Hget Hall Hlen) as (m' & Hrun & Hget' & _).
    exists m'. rewrite Hrun, Hget'. repeat split.
    unfold settled_status. now intros ->.
  - intros outs. now apply (executeTask_run_returns m taskId task).
Qed.

Lemma retry_then_mark_failed_witness :
  exists m',
    executeTask_run store_retry "a"
      [(Rejected "no", 1000%Z); (TimedOut, 301000%Z); (Rejected "boom", 302000%Z)]
    = (m', Returned (Some (failure_result (Some "boom"))))
    /\ status <$> getTask m' "a" = Some failed.
Proof.
  apply (proj1 (proj2 (retry_then_mark_failed store_retry "a"
                         (sample "a" low pending None) eq_refl))
           [(Rejected "no", 1000%Z); (TimedOut, 301000%Z)]
           (Rejected "boom") 302000%Z); reflexivity.
Defined.

(** ** Exhausted retries and [lastRunAt] *)

(** C6, as the code has it. When all [1 + maxRetries] attempts throw or
    time out, the task is marked failed and the result carries
    [success:false] and the error of the last attempt, but [lastRunAt]
    keeps the value it had before the execution: this path does not
    stamp it. *)
Theorem exhausted_retries_leave_lastRunAt m taskId task fails o now :
  getTask m taskId = Some task ->
  all_failures (fails ++ [(o, now)]) = true ->
  Z.of_nat (length fails) = maxRetries (config m) ->
  exists m' task',
    executeTask_run m taskId (fails ++ [(o, now)])
    = (m', Returned (Some (failure_result (failure_message (config m) o))))
    /\ getTask m' taskId = Some task'
    /\ status task' = failed
    /\ lastRunAt task' = lastRunAt task.
Proof.
  intros Hget Hall Hlen.
  destruct (executeTask_run_exhausted m taskId task fails o now Hget Hall Hlen)
    as (m' & Hrun & Hget' & _).
  exists m', (set_status failed task). now repeat split.
Qed.

Lemma exhausted_retries_leave_lastRunAt_witness :
  exists m' task',
    executeTask_run store_retry "a"
      [(Rejected "boom", 1000%Z); (Rejected "boom", 2000%Z);
       (Rejected "boom", 3000%Z)]
    = (m', Returned (Some (failure_result (Some "boom"))))
    /\ getTask m' "a" = Some task'
    /\ status task' = failed
    /\ lastRunAt task' = None.
Proof.
  apply (exhausted_retries_leave_lastRunAt store_retry "a"
           (sample "a" low pending None)
           [(Rejected "boom", 1000%Z); (Rejected "boom", 2000%Z)]
           (Rejected "boom") 3000%Z); reflexivity.
Defined.

(** ** Well-formed stores *)

Lemma Map_get_None {V : Type} k (l : list (string * V)) :
  Map_get k l = None <-> ~ In k (map fst l).
Proof.
  induction l as [|[k0 v0] l IH]; simpl; [tauto|].
  destruct (String.eqb_spec k k0) as [->|Hne].
  - split; [discriminate|]. intros H. exfalso. apply H. now left.
  - rewrite IH. split; [intros H [?|?]; [congruence|tauto]|tauto].
Qed.

Lemma Map_set_keys {V : Type} k (v : V) l :
  map fst (Map_set k v l)
  = if Map_has k l then map fst l else map fst l ++ [k].
Proof.
  unfold Map_has. induction l as [|[k0 v0] l IH]; simpl; [reflexivity|].
  destruct (String.eqb_spec k k0) as [->|Hne]; simpl; [reflexivity|].
  rewrite IH. now destruct (Map_get k l).
Qed.

Lemma Map_set_In {V : Type} k (v : V) l k' v' :
  List.NoDup (map fst l) ->
  In (k', v') (Map_set k v l) ->
  (k' = k /\ v' = v) \/ (k' <> k /\ In (k', v') l).
Proof.
  induction l as [|[k0 v0] l IH]; simpl; intros Hnd.
  - intros [[= <- <-]|[]]. now left.
  - inversion Hnd as [|? ? Hnotin Hnd']; subst.
    destruct (String.eqb_spec k k0) as [<-|Hne]; simpl.
    + intros [[= <- <-]|Hin]; [now left|]. right. split; [|now right].
      intros ->. apply Hnotin. now apply (in_map fst) in Hin.
    + intros [[= <- <-]|Hin]; [right; split; [congruence|now left]|].
      destruct (IH Hnd' Hin) as [?|[? ?]]; [now left|right; split; [|right]; trivial].
Qed.

Lemma Map_get_NoDup {V : Type} k (v : V) l :
  List.NoDup (map fst l) -> In (k, v) l -> Map_get k l = Some v.
Proof.
  induction l as [|[k0 v0] l IH]; simpl; intros Hnd; [intros []|].
  inversion Hnd as [|? ? Hnotin Hnd']; subst.
  intros [[= -> ->]|Hin].
  - now rewrite String.eqb_refl.
  - destruct (String.eqb_spec k k0) as [->|Hne]; [|now apply IH].
    exfalso. apply Hnotin. now apply (in_map fst) in Hin.
Qed.

(** In a well-formed store every object is found under its own id. *)
Lemma getTask_of_value m task :
  store_ok m -> In task (values m) -> getTask m (id task) = Some task.
Proof.
  intros (Hnd & _ & Hid) Hin. apply In_values in Hin as (k & r & Hin & Hr).
  rewrite getTask_Some. exists r. split; [|exact Hr].
  rewrite (Hid k r task Hin Hr). now apply Map_get_NoDup.
Qed.

Lemma store_ok_new c : store_ok (new_TaskManager c).
Proof. repeat split; simpl; try constructor; intros; contradiction. Qed.

Lemma store_ok_addTask task now m : store_ok m -> store_ok (addTask task now m).
Proof.
  intros (Hnd & Hlt & Hid). unfold addTask.
  repeat split; simpl.
  - rewrite Map_set_keys. unfold Map_has.
    destruct (Map_get (id task) (tasks m)) eqn:Hget; [exact Hnd|].
    apply Map_get_None in Hget.
    apply NoDup_app. repeat split; trivial.
    + repeat constructor. intros [].
    + intros k Hk [<-|[]]. contradiction.
  - intros k r Hin. rewrite length_app. simpl.
    apply Map_set_In in Hin as [[_ ->]|[_ Hin]]; trivial; [lia|].
    specialize (Hlt k r Hin). lia.
  - intros k r t Hin. apply Map_set_In in Hin as [[-> ->]|[_ Hin]]; trivial.
    + rewrite list_lookup_middle by reflexivity. now intros [= <-].
    + rewrite lookup_app_l by exact (Hlt k r Hin). now apply Hid.
Qed.

Lemma store_ok_assign m r f :
  (forall t, id (f t) = id t) -> store_ok m -> store_ok (assign r f m).
Proof.
  intros Hf (Hnd & Hlt & Hid). repeat split; simpl; trivial.
  - intros k r' Hin. rewrite length_alter. now apply (Hlt k).
  - intros k r' t Hin. rewrite list_lookup_alter.
    destruct (decide (r = r')) as [->|_]; [|now apply Hid].
    destruct (heap m !! r') as [t0|] eqn:Hr; [|discriminate].
    intros [= <-]. rewrite Hf. now apply (Hid k r').
Qed.

Lemma store_ok_with_runningTasks m running :
  store_ok m -> store_ok (with_runningTasks running m).
Proof. trivial. Qed.

Lemma store_ok_loop m ex : store_ok m -> store_ok (fst (executeTask_loop m ex)).
Proof.
  intros Hok. unfold executeTask_loop.
  destruct (ex_retries ex <=? maxRetries (config m))%Z; simpl; trivial.
  now apply store_ok_with_runningTasks, store_ok_assign.
Qed.

(** Executions keep the store well formed. *)
Lemma store_ok_executeTask m taskId :
  store_ok m -> store_ok (fst (executeTask m taskId)).
Proof.
  intros Hok. unfold executeTask.
  destruct (Map_get taskId (tasks m)) as [r|]; trivial.
  destruct (heap m !! r); trivial.
  now apply store_ok_loop, store_ok_with_runningTasks, store_ok_assign.
Qed.

Lemma store_ok_resume m ex o now :
  store_ok m -> store_ok (fst (executeTask_resume m ex o now)).
Proof.
  intros Hok. destruct o as [result|message|]; simpl;
    try now apply store_ok_loop.
  apply store_ok_with_runningTasks.
  assert (H2 : store_ok
                 (assign (ex_task ex) (set_lastRunAt now)
                    (assign (ex_task ex)
                       (set_status (if success result then completed else failed))
                       m)))
    by now repeat apply store_ok_assign.
  destruct (success result); trivial.
  destruct (is_periodic _ _); trivial. now apply store_ok_assign.
Qed.

(** A task added under a new id goes to the end of the iteration order. *)
Lemma values_addTask_fresh task now m :
  store_ok m ->
  Map_get (id task) (tasks m) = None ->
  values (addTask task now m) = values m ++ [stored task now].
Proof.
  intros (_ & Hlt & _) Hfresh. unfold values, addTask.
  simpl. revert Hlt Hfresh. generalize (heap m) as h.
  induction (tasks m) as [|[k r] l IH]; intros h Hlt Hfresh; simpl.
  - now rewrite list_lookup_middle.
  - simpl in Hfresh. destruct (String.eqb (id task) k); [discriminate|].
    simpl. rewrite lookup_app_l by (apply (Hlt k); now left).
    rewrite IH; trivial; [now destruct (h !! r)|].
    intros k' r' Hin. apply (Hlt k'). now right.
Qed.

(** ** Direct calls of [executeTask] *)

Lemma call_executeTask_present s taskId task :
  getTask (manager s) taskId = Some task ->
  (0 <= maxRetries (config (manager s)))%Z ->
  exists r,
    Map_get taskId (tasks (manager s)) = Some r
    /\ heap (manager s) !! r = Some task
    /\ call_executeTask s taskId
       = {| manager := started (manager s) taskId r;
            inflight := inflight s ++ [first_attempt taskId r] |}.
Proof.
  intros Hget Hpos.
  destruct (executeTask_start _ _ _ Hget) as (r & Hmap & Hr & Hstart).
  exists r. repeat split; trivial.
  unfold call_executeTask. rewrite Hstart.
  fold (started (manager s) taskId r). fold (first_attempt taskId r).
  now rewrite executeTask_loop_continue by (simpl; lia).
Qed.

Lemma Set_add_present taskId running :
  Set_has taskId running = true -> Set_add taskId running = running.
Proof. unfold Set_add. now intros ->. Qed.

Lemma Set_add_absent taskId running :
  Set_has taskId running = false -> Set_add taskId running = running ++ [taskId].
Proof. unfold Set_add. now intros ->. Qed.

Lemma executeNext_full m now :
  (maxConcurrent (config m) <= getRunningCount m)%Z ->
  executeNext m now = (m, Returned None).
Proof.
  intros H. unfold executeNext.
  now destruct (Z.geb_spec (getRunningCount m) (maxConcurrent (config m))); [|lia].
Qed.

Lemma executeTask_awaiting m taskId m' ex :
  executeTask m taskId = (m', Awaiting ex) ->
  ex_taskId ex = taskId /\ Map_get taskId (tasks m) = Some (ex_task ex).
Proof.
  unfold executeTask, executeTask_loop.
  destruct (Map_get taskId (tasks m)) as [r|]; [|discriminate].
  destruct (heap m !! r); [|discriminate]. simpl.
  destruct (0 <=? maxRetries (config m))%Z; [|discriminate].
  now intros [= _ <-].
Qed.

(** Task [a] is in the running set after the first call, and the
    second call puts a second execution of it in flight. *)
Lemma second_call_starts_second_execution :
  Set_has "a" (runningTasks (manager system_once)) = true
  /\ executions_of system_once "a" = [first_attempt "a" 0]
  /\ executions_of system_twice "a" = [first_attempt "a" 0; first_attempt "a" 0]
  /\ runningTasks (manager system_twice) = ["a"].
Proof. repeat split. Qed.

(** C7, amended. Registering in the running set does not keep a task
    from being executed twice at once: a call of [executeTask] for an
    id that is already in the running set starts one more execution of
    that task next to those in flight, and the set, which holds an id
    once, stays as it is. Only [executeNext] is selective: the id it
    starts is that of a task its filter found pending. *)
Theorem running_set_does_not_exclude s taskId task :
  getTask (manager s) taskId = Some task ->
  (0 <= maxRetries (config (manager s)))%Z ->
  Set_has taskId (runningTasks (manager s)) = true ->
  (exists ex,
      inflight (call_executeTask s taskId) = inflight s ++ [ex]
      /\ executions_of (call_executeTask s taskId) taskId
         = executions_of s taskId ++ [ex])
  /\ runningTasks (manager (call_executeTask s taskId))
     = runningTasks (manager s)
  /\ getTask (manager (call_executeTask s taskId)) taskId
     = Some (set_status running task)
  /\ (store_ok (manager s) ->
      forall now m' ex,
        executeNext (manager s) now = (m', Awaiting ex) ->
        exists t,
          In t (getPendingTasks (manager s) now)
          /\ id t = ex_taskId ex
          /\ heap (manager s) !! ex_task ex = Some t
          /\ status t = pending).
Proof.
  intros Hget Hpos Hin.
  destruct (call_executeTask_present s taskId task Hget Hpos)
    as (r & Hmap & Hr & ->).
  simpl. repeat split.
  - exists (first_attempt taskId r). split; [reflexivity|].
    unfold executions_of. simpl. rewrite filter_app. simpl.
    now rewrite String.eqb_refl.
  - now apply Set_add_present.
  - now apply getTask_started.
  - intros Hok now m' ex. unfold executeNext.
    destruct (getRunningCount (manager s) >=? maxConcurrent (config (manager s)))%Z;
      [discriminate|].
    destruct (getPendingTasks (manager s) now) as [|t l] eqn:Hp; [discriminate|].
    intros Hex. exists t.
    assert (Ht : In t (getPendingTasks (manager s) now)) by (rewrite Hp; now left).
    rewrite <- Hp. split; [exact Ht|].
    apply In_getPendingTasks in Ht as [Hval Hel].
    apply is_eligible_true in Hel as (Hs & _).
    apply executeTask_awaiting in Hex as [Hid Hstarted].
    split; [now symmetry|]. split; [|exact Hs].
    apply (getTask_of_value _ _ Hok), getTask_Some in Hval as (r' & Hfound & Hr').
    congruence.
Qed.

Lemma running_set_does_not_exclude_witness :
  store_ok (manager system_once)
  /\ exists ex,
      inflight (call_executeTask system_once "a") = inflight system_once ++ [ex]
      /\ executions_of (call_executeTask system_once "a") "a"
         = executions_of system_once "a" ++ [ex].
Proof.
  split.
  - apply (store_ok_executeTask store_retry "a"), store_ok_addTask, store_ok_new.
  - apply (running_set_does_not_exclude system_once "a"
             (set_status running (sample "a" low pending None)));
      reflexivity || (simpl; lia).
Defined.

(** With [maxRetries: -1], which the constructor keeps, the condition
    of the loop is false at once: a direct call of [executeTask] for
    task [a], which is in the store, invokes no action and starts no
    execution; it returns the synthesised failure and leaves the task
    failed and out of the running set. *)
Lemma negative_maxRetries_starts_no_execution :
  maxRetries (config store_negative) = (-1)%Z
  /\ getTask store_negative "a" = Some (sample "a" low pending None)
  /\ snd (executeTask store_negative "a")
     = Returned (Some (failure_result None))
  /\ inflight (call_executeTask system_negative "a") = []
  /\ status <$> getTask (manager (call_executeTask system_negative "a")) "a"
     = Some failed
  /\ runningTasks (manager (call_executeTask system_negative "a")) = [].
Proof. repeat split. Qed.

(** C10, amended. With [maxRetries >= 0], a direct call of
    [executeTask] for an id of the store marks the task running,
    registers the id and puts an execution in flight, whatever the
    status of the task and however many tasks are running: with the
    running count at [maxConcurrent] and the id not yet registered, the
    count goes above [maxConcurrent]. Only [executeNext] compares the
    count against [maxConcurrent]. *)
Theorem executeTask_ignores_maxConcurrent s taskId task :
  getTask (manager s) taskId = Some task ->
  (0 <= maxRetries (config (manager s)))%Z ->
  (exists ex,
      inflight (call_executeTask s taskId) = inflight s ++ [ex]
      /\ ex_taskId ex = taskId
      /\ heap (manager s) !! ex_task ex = Some task)
  /\ getTask (manager (call_executeTask s taskId)) taskId
     = Some (set_status running task)
  /\ runningTasks (manager (call_executeTask s taskId))
     = Set_add taskId (runningTasks (manager s))
  /\ (Set_has taskId (runningTasks (manager s)) = false ->
      getRunningCount (manager s) = maxConcurrent (config (manager s)) ->
      (maxConcurrent (config (manager (call_executeTask s taskId)))
       < getRunningCount (manager (call_executeTask s taskId)))%Z)
  /\ (forall now,
         (maxConcurrent (config (manager s)) <= getRunningCount (manager s))%Z ->
         call_executeNext s now = s).
Proof.
  intros Hget Hpos.
  destruct (call_executeTask_present s taskId task Hget Hpos)
    as (r & Hmap & Hr & ->).
  simpl. repeat split.
  - now exists (first_attempt taskId r).
  - now apply getTask_started.
  - intros Habsent Hfull. rewrite <- Hfull. unfold getRunningCount. simpl.
    rewrite (Set_add_absent _ _ Habsent), length_app. simpl. lia.
  - intros now Hfull. unfold call_executeNext.
    rewrite (executeNext_full _ now Hfull). now destruct s.
Qed.

Lemma executeTask_ignores_maxConcurrent_witness :
  getRunningCount (manager system_done) = maxConcurrent (config (manager system_done))
  /\ status <$> getTask (manager system_done) "c" = Some completed
  /\ status <$> getTask (manager (call_executeTask system_done "c")) "c"
     = Some running
  /\ (maxConcurrent (config (manager (call_executeTask system_done "c")))
      < getRunningCount (manager (call_executeTask system_done "c")))%Z.
Proof.
  destruct (executeTask_ignores_maxConcurrent system_done "c"
              (sample "c" low completed None) eq_refl)
    as (_ & Hget & _ & Hover & _); [simpl; lia|].
  split; [reflexivity|]. split; [reflexivity|]. split.
  - now rewrite Hget.
  - now apply Hover.
Defined.

(** ** What an execution writes *)

Lemma only_touches_refl r m : only_touches r m m.
Proof. now repeat split. Qed.

Lemma only_touches_trans r m1 m2 m3 :
  only_touches r m1 m2 -> only_touches r m2 m3 -> only_touches r m1 m3.
Proof.
  intros (Ht & Hc & Ho & Hd) (Ht' & Hc' & Ho' & Hd'). repeat split; try congruence.
  intros r' Hne. now rewrite Ho', Ho.
Qed.

Lemma only_touches_assign r f m :
  (forall t, descriptor (f t) = descriptor t) -> only_touches r m (assign r f m).
Proof.
  intros Hf. repeat split; simpl.
  - intros r' Hne. now apply list_lookup_alter_ne.
  - rewrite list_lookup_alter_eq. destruct (heap m !! r); simpl; [|reflexivity].
    now rewrite Hf.
Qed.

Lemma only_touches_running r m running :
  only_touches r m (with_runningTasks running m).
Proof. now repeat split. Qed.

Lemma executeTask_loop_touches m ex :
  only_touches (ex_task ex) m (fst (executeTask_loop m ex)).
Proof.
  unfold executeTask_loop.
  destruct (ex_retries ex <=? maxRetries (config m))%Z; simpl.
  - apply only_touches_refl.
  - eapply only_touches_trans; [|apply only_touches_running].
    now apply only_touches_assign.
Qed.

Lemma executeTask_loop_same m ex ex' :
  snd (executeTask_loop m ex) = Awaiting ex' -> ex' = ex.
Proof.
  unfold executeTask_loop.
  destruct (ex_retries ex <=? maxRetries (config m))%Z; simpl; [|discriminate].
  now intros [= <-].
Qed.

Lemma executeTask_resume_touches m ex o now :
  only_touches (ex_task ex) m (fst (executeTask_resume m ex o now)).
Proof.
  destruct o as [result|message|]; simpl;
    try apply (executeTask_loop_touches m
                 {| ex_taskId := ex_taskId ex; ex_task := ex_task ex;
                    ex_retries := ex_retries ex + 1;
                    ex_lastError := _ |}).
  eapply only_touches_trans; [|apply only_touches_running].
  assert (H2 : only_touches (ex_task ex) m
                 (assign (ex_task ex) (set_lastRunAt now)
                    (assign (ex_task ex)
                       (set_status (if success result then completed else failed))
                       m))).
  { eapply only_touches_trans; now apply only_touches_assign. }
  destruct (success result); trivial.
  destruct (is_periodic _ _); trivial.
  eapply only_touches_trans; [exact H2|]. now apply only_touches_assign.
Qed.

Lemma executeTask_resume_same m ex o now ex' :
  snd (executeTask_resume m ex o now) = Awaiting ex' ->
  ex_task ex' = ex_task ex /\ ex_taskId ex' = ex_taskId ex.
Proof.
  destruct o as [result|message|]; simpl; try discriminate;
    intros H; apply executeTask_loop_same in H; now subst.
Qed.

Lemma settle_all_touches outs : forall m ex,
  only_touches (ex_task ex) m (fst (settle_all m ex outs)).
Proof.
  induction outs as [|[o now] outs IH]; intros m ex; simpl.
  - apply only_touches_refl.
  - pose proof (executeTask_resume_touches m ex o now) as Hstep.
    pose proof (executeTask_resume_same m ex o now) as Hsame.
    destruct (executeTask_resume m ex o now) as [m' [v|ex']]; simpl in *; trivial.
    destruct (Hsame ex' eq_refl) as [Hr _].
    eapply only_touches_trans; [exact Hstep|]. rewrite <- Hr. apply IH.
Qed.

Lemma executeTask_touches m taskId r :
  Map_get taskId (tasks m) = Some r ->
  only_touches r m (fst (executeTask m taskId)).
Proof.
  intros Hmap. unfold executeTask. rewrite Hmap.
  destruct (heap m !! r); simpl; [|apply only_touches_refl].
  eapply only_touches_trans;
    [|apply (executeTask_loop_touches _
               {| ex_taskId := taskId; ex_task := r;
                  ex_retries := 0; ex_lastError := None |})].
  eapply only_touches_trans; [|apply only_touches_running].
  now apply only_touches_assign.
Qed.

Lemma executeTask_same m taskId r ex :
  Map_get taskId (tasks m) = Some r ->
  snd (executeTask m taskId) = Awaiting ex ->
  ex_task ex = r /\ ex_taskId ex = taskId.
Proof.
  intros Hmap. unfold executeTask. rewrite Hmap.
  destruct (heap m !! r); simpl; [|discriminate].
  intros H. apply executeTask_loop_same in H. now subst.
Qed.

Lemma executeTask_run_touches m taskId r outs :
  Map_get taskId (tasks m) = Some r ->
  only_touches r m (fst (executeTask_run m taskId outs)).
Proof.
  intros Hmap. unfold executeTask_run.
  pose proof (executeTask_touches m taskId r Hmap) as Hstart.
  pose proof (executeTask_same m taskId r) as Hsame.
  destruct (executeTask m taskId) as [m' [v|ex]]; simpl in *; trivial.
  destruct (Hsame ex Hmap eq_refl) as [<- _].
  eapply only_touches_trans; [exact Hstart|]. apply settle_all_touches.
Qed.

(** In a well-formed store two keys never share an object. *)
Lemma store_ok_refs_distinct m k1 k2 r :
  store_ok m ->
  Map_get k1 (tasks m) = Some r -> Map_get k2 (tasks m) = Some r -> k1 = k2.
Proof.
  intros (_ & Hlt & Hid) H1 H2.
  apply Map_get_In in H1, H2.
  destruct (lookup_lt_is_Some_2 (heap m) r (Hlt k1 r H1)) as [t Ht].
  now rewrite <- (Hid k1 r t H1 Ht), <- (Hid k2 r t H2 Ht).
Qed.

Lemma only_touches_getTask_other m m' r taskId k :
  store_ok m ->
  Map_get taskId (tasks m) = Some r ->
  only_touches r m m' ->
  k <> taskId ->
  getTask m' k = getTask m k.
Proof.
  intros Hok Hmap (Ht & _ & Ho & _) Hne. unfold getTask. rewrite Ht.
  destruct (Map_get k (tasks m)) as [r'|] eqn:Hk; [|reflexivity].
  apply Ho. intros ->. apply Hne. exact (store_ok_refs_distinct m k taskId r Hok Hk Hmap).
Qed.

Lemma only_touches_store_ok r m m' :
  only_touches r m m' -> store_ok m -> store_ok m'.
Proof.
  intros (Ht & _ & Ho & Hd) (Hnd & Hlt & Hid). unfold store_ok. rewrite Ht.
  assert (Hsome : forall r', is_Some (heap m' !! r') <-> is_Some (heap m !! r')).
  { intros r'. destruct (decide (r' = r)) as [->|Hne]; [|now rewrite Ho].
    destruct (heap m' !! r), (heap m !! r); simpl in Hd; try discriminate;
      split; intros [? ?]; try discriminate; eauto. }
  repeat split; trivial.
  - intros k r' Hin. apply lookup_lt_is_Some, Hsome, lookup_lt_is_Some.
    now apply (Hlt k).
  - intros k r' t Hin Hr'. destruct (decide (r' = r)) as [->|Hne].
    + rewrite Hr' in Hd. destruct (heap m !! r) as [t0|] eqn:Hr0; [|discriminate].
      simpl in Hd. rewrite <- (Hid k r t0 Hin Hr0).
      change (id (descriptor t) = id (descriptor t0)). congruence.
    + apply (Hid k r'); trivial. now rewrite <- Ho.
Qed.

(** ** The store: insertion, removal, statistics *)

Lemma Map_get_set_eq {V : Type} k (v : V) l : Map_get k (Map_set k v l) = Some v.
Proof.
  induction l as [|[k0 v0] l IH]; simpl.
  - now rewrite String.eqb_refl.
  - destruct (String.eqb_spec k k0) as [->|Hne]; simpl.
    + now rewrite String.eqb_refl.
    + now destruct (String.eqb_spec k k0).
Qed.

Lemma Map_get_set_ne {V : Type} k k' (v : V) l :
  k' <> k -> Map_get k' (Map_set k v l) = Map_get k' l.
Proof.
  intros Hne. induction l as [|[k0 v0] l IH]; simpl.
  - now destruct (String.eqb_spec k' k).
  - destruct (String.eqb_spec k k0) as [->|Hne0]; simpl.
    + now destruct (String.eqb_spec k' k0).
    + now rewrite IH.
Qed.

Lemma Map_get_delete_eq {V : Type} k (l : list (string * V)) :
  Map_get k (Map_delete k l) = None.
Proof.
  induction l as [|[k0 v0] l IH]; simpl; [reflexivity|].
  destruct (String.eqb_spec k k0) as [->|Hne]; simpl; [exact IH|].
  now destruct (String.eqb_spec k k0).
Qed.

Lemma Map_get_delete_ne {V : Type} k k' (l : list (string * V)) :
  k' <> k -> Map_get k' (Map_delete k l) = Map_get k' l.
Proof.
  intros Hne. induction l as [|[k0 v0] l IH]; simpl; [reflexivity|].
  destruct (String.eqb_spec k k0) as [->|Hne0]; simpl.
  - now destruct (String.eqb_spec k' k0).
  - now rewrite IH.
Qed.

Lemma getTask_addTask_eq m task now :
  getTask (addTask task now m) (id task) = Some (stored task now).
Proof.
  unfold getTask, addTask. simpl. rewrite Map_get_set_eq.
  now apply list_lookup_middle.
Qed.

Lemma getTask_addTask_ne m task now k :
  store_ok m -> k <> id task ->
  getTask (addTask task now m) k = getTask m k.
Proof.
  intros (_ & Hlt & _) Hne. unfold getTask, addTask. simpl.
  rewrite Map_get_set_ne by exact Hne.
  destruct (Map_get k (tasks m)) as [r|] eqn:Hget; [|reflexivity].
  apply lookup_app_l, (Hlt k). now apply Map_get_In.
Qed.

(** X1. [getTask] after [addTask] returns the copy that was stored,
    whatever the map held under that id before (the old object, with
    its status and its last run, is replaced whole); the entries under
    other ids are as they were. *)
Theorem addTask_then_getTask m task now :
  getTask (addTask task now m) (id task) = Some (stored task now)
  /\ status (stored task now) = status task
  /\ createdAt (stored task now) = Some (default now (createdAt task))
  /\ (store_ok m ->
      forall k, k <> id task -> getTask (addTask task now m) k = getTask m k).
Proof.
  split; [apply getTask_addTask_eq|]. repeat split.
  intros Hok k. now apply getTask_addTask_ne.
Qed.

Lemma values_ids m : store_ok m -> map id (values m) = map fst (tasks m).
Proof.
  intros (_ & Hlt & Hid). unfold values. revert Hlt Hid.
  induction (tasks m) as [|[k r] l IH]; intros Hlt Hid; [reflexivity|].
  simpl. destruct (lookup_lt_is_Some_2 (heap m) r) as [t Ht].
  { apply (Hlt k). now left. }
  rewrite Ht. simpl. rewrite (Hid k r t (or_introl eq_refl) Ht). f_equal.
  apply IH.
  - intros k' r' Hin. apply (Hlt k'). now right.
  - intros k' r' t' Hin. apply Hid. now right.
Qed.

(** X2. In a well-formed store the iteration order of the map is the
    order of first insertion: adding a task under a new id puts it last,
    adding one under an id that is present leaves the order of the ids
    as it is. *)
Theorem addTask_iteration_order m task now :
  store_ok m ->
  map id (values (addTask task now m))
  = if Map_has (id task) (tasks m) then map id (values m)
    else map id (values m) ++ [id task].
Proof.
  intros Hok. rewrite (values_ids _ (store_ok_addTask task now m Hok)).
  rewrite (values_ids m Hok). apply Map_set_keys.
Qed.

Lemma addTask_iteration_order_witness :
  map id (values (addTask (sample "a" critical running None) 5 store_ab))
  = ["a"; "b"]
  /\ map id (values (addTask (sample "c" critical pending None) 5 store_ab))
     = ["a"; "b"; "c"].
Proof.
  assert (Hok : store_ok store_ab) by (do 2 apply store_ok_addTask; apply store_ok_new).
  split.
  - exact (addTask_iteration_order store_ab (sample "a" critical running None) 5 Hok).
  - exact (addTask_iteration_order store_ab (sample "c" critical pending None) 5 Hok).
Defined.

Lemma NoDup_filter_keys {V : Type} (keep : string * V -> bool) l :
  List.NoDup (map fst l) -> List.NoDup (map fst (List.filter keep l)).
Proof.
  induction l as [|[k r] l IH]; simpl; intros Hnd; [constructor|].
  inversion Hnd as [|? ? Hnotin Hnd']; subst.
  destruct (keep (k, r)); simpl; [|now apply IH].
  constructor; [|now apply IH].
  intros Hin. apply Hnotin. apply in_map_iff in Hin as ([k' r'] & <- & Hin).
  apply filter_In in Hin as [Hin _]. now apply (in_map fst) in Hin.
Qed.

Lemma store_ok_filter m (keep : string * nat -> bool) :
  store_ok m -> store_ok (with_tasks (List.filter keep (tasks m)) m).
Proof.
  intros (Hnd & Hlt & Hid). repeat split; simpl.
  - now apply NoDup_filter_keys.
  - intros k r Hin. apply filter_In in Hin as [Hin _]. now apply (Hlt k).
  - intros k r t Hin. apply filter_In in Hin as [Hin _]. now apply Hid.
Qed.

(** X3. [removeTask] answers whether the id was in the map; afterwards
    [getTask] finds nothing under that id, the other entries are as they
    were, the store stays well formed, and the running set is not
    touched: removing a task that is being executed does not free its
    slot. *)
Theorem removeTask_then_getTask m taskId :
  (snd (removeTask taskId m) = true <-> is_Some (Map_get taskId (tasks m)))
  /\ getTask (fst (removeTask taskId m)) taskId = None
  /\ (forall k, k <> taskId ->
                getTask (fst (removeTask taskId m)) k = getTask m k)
  /\ runningTasks (fst (removeTask taskId m)) = runningTasks m
  /\ (store_ok m -> store_ok (fst (removeTask taskId m))).
Proof.
  unfold removeTask, getTask, Map_has. simpl.
  split; [|split; [|split; [|split; [reflexivity|]]]].
  - destruct (Map_get taskId (tasks m)); split; eauto; try discriminate.
    now intros [? [=]].
  - now rewrite Map_get_delete_eq.
  - intros k Hne. now rewrite Map_get_delete_ne.
  - apply store_ok_filter.
Qed.

Lemma count_status_partition l :
  length l
  = (count_status pending l + count_status running l
     + count_status completed l + count_status failed l)%nat.
Proof.
  unfold count_status. induction l as [|t l IH]; [reflexivity|].
  simpl. destruct (status t); simpl; lia.
Qed.

Lemma values_length m : store_ok m -> length (values m) = length (tasks m).
Proof.
  intros Hok. rewrite <- (length_map id), (values_ids m Hok). apply length_map.
Qed.

(** X4. In a well-formed store the four counts of [getStats] add up to
    its total: every task is counted under exactly one status. *)
Theorem getStats_counts_add_up m :
  store_ok m ->
  total (getStats m)
  = (n_pending (getStats m) + n_running (getStats m)
     + n_completed (getStats m) + n_failed (getStats m))%nat.
Proof.
  intros Hok. simpl. rewrite <- (values_length m Hok). apply count_status_partition.
Qed.

Lemma getStats_counts_add_up_witness :
  total (getStats store_ab) = 2%nat
  /\ total (getStats store_ab)
     = (n_pending (getStats store_ab) + n_running (getStats store_ab)
        + n_completed (getStats store_ab) + n_failed (getStats store_ab))%nat.
Proof.
  split; [reflexivity|]. apply getStats_counts_add_up.
  do 2 apply store_ok_addTask. apply store_ok_new.
Defined.

Lemma values_filter m (keep : string * nat -> bool) (keep' : Task -> bool) :
  (forall k r t, heap m !! r = Some t -> keep (k, r) = keep' t) ->
  (forall k r, heap m !! r = None -> keep (k, r) = true) ->
  values (with_tasks (List.filter keep (tasks m)) m)
  = List.filter keep' (values m).
Proof.
  intros Hsome Hnone. unfold values. simpl.
  generalize (tasks m) as l. induction l as [|[k r] l IH]; [reflexivity|].
  cbn [List.filter]. destruct (heap m !! r) as [t|] eqn:Hr.
  - rewrite (Hsome k r t Hr).
    destruct (keep' t) eqn:Hk; cbn; rewrite Hr; cbn; rewrite ?Hk; now rewrite <- IH.
  - rewrite (Hnone k r Hr). cbn. rewrite Hr. exact IH.
Qed.

(** X5. [clearCompleted] deletes exactly the completed tasks that are
    not periodic: the tasks that remain are the others, in the order
    they had; the number it returns is the number of entries deleted;
    and the store stays well formed. *)
Theorem clearCompleted_removes_completed m :
  values (fst (clearCompleted m))
  = List.filter (fun t => negb (is_cleared t)) (values m)
  /\ length (tasks m)
     = (length (tasks (fst (clearCompleted m))) + snd (clearCompleted m))%nat
  /\ heap (fst (clearCompleted m)) = heap m
  /\ (store_ok m -> store_ok (fst (clearCompleted m))).
Proof.
  unfold clearCompleted. simpl. split; [|split; [|split; [reflexivity|]]].
  - apply values_filter; unfold clearable, is_cleared; simpl.
    + now intros k r t ->.
    + now intros k r ->.
  - induction (tasks m) as [|kv l IH]; [reflexivity|].
    simpl. destruct (clearable m kv); simpl; lia.
  - apply store_ok_filter.
Qed.

(** X6. The constructor reads a configured [0] as missing: a manager
    asked for no retry ([maxRetries: 0]) retries twice like the default
    one. A task whose attempts all throw or time out is attempted three
    times before it is marked failed. *)
Theorem zero_maxRetries_still_retries c task now o1 o2 o3 :
  opt_maxRetries c = Some 0%Z ->
  all_failures [o1; o2; o3] = true ->
  maxRetries (config (addTask task now (new_TaskManager c))) = 2%Z
  /\ (exists m' ex,
         executeTask_run (addTask task now (new_TaskManager c)) (id task) [o1; o2]
         = (m', Awaiting ex)
         /\ ex_retries ex = 2%Z)
  /\ (exists m' result,
         executeTask_run (addTask task now (new_TaskManager c)) (id task)
           [o1; o2; o3]
         = (m', Returned (Some result))
         /\ success result = false
         /\ status <$> getTask m' (id task) = Some failed).
Proof.
  intros Hzero Hall.
  set (m := addTask task now (new_TaskManager c)).
  assert (Hcfg : maxRetries (config m) = 2%Z) by (simpl; now rewrite Hzero).
  assert (Hget : getTask m (id task) = Some (stored task now))
    by apply getTask_addTask_eq.
  destruct o1 as [o1 t1], o2 as [o2 t2], o3 as [o3 t3].
  unfold all_failures in Hall. simpl in Hall.
  apply andb_true_iff in Hall as [H1 Hall].
  apply andb_true_iff in Hall as [H2 Hall].
  apply andb_true_iff in Hall as [H3 _].
  split; [exact Hcfg|]. split.
  - destruct (executeTask_run_failures m (id task) _ [(o1, t1); (o2, t2)] Hget)
      as (r & _ & _ & Hrun).
    + unfold all_failures. simpl. now rewrite H1, H2.
    + rewrite Hcfg. simpl. lia.
    + eexists _, _. split; [exact Hrun|]. reflexivity.
  - destruct (executeTask_run_exhausted m (id task) _ [(o1, t1); (o2, t2)] o3 t3 Hget)
      as (m' & Hrun & Hget' & _).
    + unfold all_failures. simpl. now rewrite H1, H2, H3.
    + now rewrite Hcfg.
    + eexists _, _. split; [exact Hrun|]. split; [reflexivity|]. now rewrite Hget'.
Qed.

Lemma zero_maxRetries_still_retries_witness :
  maxRetries (config (addTask (sample "a" low pending None) 0
                        (new_TaskManager no_retry_config))) = 2%Z.
Proof.
  apply (zero_maxRetries_still_retries no_retry_config
           (sample "a" low pending None) 0%Z
           (Rejected "x", 1%Z) (TimedOut, 2%Z) (Rejected "y", 3%Z));
    reflexivity.
Defined.

(** ** Calls that return null *)

(** X7. [executeTask] returns null exactly when the store has no task
    under the id, and then it changes nothing; [executeNext] returns
    null when no task is eligible, and whenever it returns null it has
    changed nothing. *)
Theorem null_means_nothing_happened m :
  (forall taskId,
      getTask m taskId = None <-> executeTask m taskId = (m, Returned None))
  /\ (forall taskId m', executeTask m taskId = (m', Returned None) -> m' = m)
  /\ (forall now, getPendingTasks m now = [] ->
                  executeNext m now = (m, Returned None))
  /\ (forall now m', executeNext m now = (m', Returned None) -> m' = m).
Proof.
  assert (Hnull : forall taskId m',
             executeTask m taskId = (m', Returned None) ->
             m' = m /\ getTask m taskId = None).
  { intros taskId m'. unfold executeTask, getTask, executeTask_loop.
    destruct (Map_get taskId (tasks m)) as [r|]; [|now intros [= <-]].
    destruct (heap m !! r); [|now intros [= <-]]. simpl.
    destruct (0 <=? maxRetries (config m))%Z; discriminate. }
  split; [|split; [|split]].
  - intros taskId. split; [|now intros H; apply Hnull in H].
    unfold executeTask, getTask.
    destruct (Map_get taskId (tasks m)) as [r|]; [|reflexivity].
    now intros ->.
  - intros taskId m' H. now apply Hnull in H.
  - intros now Hnone. unfold executeNext. rewrite Hnone.
    now destruct (getRunningCount m >=? maxConcurrent (config m))%Z.
  - intros now m'. unfold executeNext.
    destruct (getRunningCount m >=? maxConcurrent (config m))%Z;
      [now intros [= <-]|].
    destruct (getPendingTasks m now) as [|t l]; [now intros [= <-]|].
    intros H. now apply Hnull in H.
Qed.

(** ** What [executeNext] starts *)

(** X8. Below the concurrency limit and with an eligible task,
    [executeNext] starts the head of [getPendingTasks]: that very
    object is marked running and awaited, and no eligible task has a
    more urgent priority. *)
Theorem executeNext_starts_most_urgent m now task rest :
  store_ok m ->
  (0 <= maxRetries (config m))%Z ->
  (getRunningCount m < maxConcurrent (config m))%Z ->
  getPendingTasks m now = task :: rest ->
  exists r,
    executeNext m now
    = (started m (id task) r, Awaiting (first_attempt (id task) r))
    /\ heap m !! r = Some task
    /\ getTask (started m (id task) r) (id task) = Some (set_status running task)
    /\ forall other, In other (getPendingTasks m now) -> priority_le task other.
Proof.
  intros Hok Hpos Hfree Hp.
  assert (Hin : In task (getPendingTasks m now)) by (rewrite Hp; now left).
  apply In_getPendingTasks in Hin as [Hval _].
  pose proof (getTask_of_value m task Hok Hval) as Hget.
  destruct (executeTask_start m (id task) task Hget) as (r & Hmap & Hr & Hstart).
  exists r. split; [|split; [exact Hr|split; [now apply getTask_started|]]].
  - unfold executeNext. rewrite Hp.
    destruct (Z.geb_spec (getRunningCount m) (maxConcurrent (config m))); [lia|].
    rewrite Hstart. fold (started m (id task) r). fold (first_attempt (id task) r).
    now apply executeTask_loop_continue.
  - intros other Hother.
    pose proof (Array_sort_sorted (fun t => priorityOrder (priority t))
                  (List.filter (is_eligible m now) (values m))) as Hsorted.
    change (StronglySorted priority_le (getPendingTasks m now)) in Hsorted.
    rewrite Hp in Hsorted, Hother. inversion Hsorted as [|? ? _ Hall]; subst.
    destruct Hother as [<-|Hother]; [unfold priority_le; lia|].
    rewrite Forall_forall in Hall. now apply Hall.
Qed.

Lemma executeNext_starts_most_urgent_witness :
  exists r,
    executeNext store_ab 0
    = (started store_ab "a" r, Awaiting (first_attempt "a" r))
    /\ heap store_ab !! r = Some (sample "a" low pending None).
Proof.
  destruct (executeNext_starts_most_urgent store_ab 0%Z
              (sample "a" low pending None) [])
    as (r & Hnext & Hr & _).
  - do 2 apply store_ok_addTask. apply store_ok_new.
  - simpl. lia.
  - reflexivity.
  - reflexivity.
  - now exists r.
Defined.

(** ** Leaving the running set *)

Lemma Set_has_delete k s : Set_has k (Set_delete k s) = false.
Proof.
  unfold Set_has, Set_delete. induction s as [|k' s IH]; [reflexivity|].
  simpl. destruct (String.eqb_spec k k') as [->|Hne]; simpl; [exact IH|].
  now destruct (String.eqb_spec k k').
Qed.

Lemma Set_delete_absent k s : Set_has k s = false -> Set_delete k s = s.
Proof.
  unfold Set_has, Set_delete. induction s as [|k' s IH]; [reflexivity|].
  simpl. destruct (String.eqb k k'); simpl; [discriminate|].
  intros H. now rewrite IH.
Qed.

Lemma Set_delete_add k s : Set_has k s = false -> Set_delete k (Set_add k s) = s.
Proof.
  intros H. rewrite (Set_add_absent k s H). unfold Set_delete.
  rewrite filter_app. simpl. rewrite String.eqb_refl. simpl.
  rewrite app_nil_r. now apply Set_delete_absent.
Qed.

Lemma Set_delete_add_present k s :
  Set_has k s = true -> Set_delete k (Set_add k s) = Set_delete k s.
Proof. intros H. now rewrite (Set_add_present k s H). Qed.

(** Each step of an execution either returns, with the id taken out of
    the running set, or awaits the next attempt with the manager as it
    was. *)
Lemma executeTask_loop_cases m ex :
  (exists v, executeTask_loop m ex
             = (with_runningTasks (Set_delete (ex_taskId ex) (runningTasks m))
                  (assign (ex_task ex) (set_status failed) m), Returned v))
  \/ executeTask_loop m ex = (m, Awaiting ex).
Proof.
  unfold executeTask_loop.
  destruct (ex_retries ex <=? maxRetries (config m))%Z; eauto.
Qed.

Lemma executeTask_resume_cases m ex o now :
  (exists m' v, executeTask_resume m ex o now = (m', Returned v)
                /\ runningTasks m'
                   = Set_delete (ex_taskId ex) (runningTasks m))
  \/ (exists ex', executeTask_resume m ex o now = (m, Awaiting ex')
                  /\ ex_taskId ex' = ex_taskId ex).
Proof.
  destruct o as [result|message|]; simpl.
  - left. eexists _, _. split; [reflexivity|]. simpl.
    destruct (success result); [destruct (is_periodic _ _)|]; reflexivity.
  - destruct (executeTask_loop_cases m
                {| ex_taskId := ex_taskId ex; ex_task := ex_task ex;
                   ex_retries := ex_retries ex + 1;
                   ex_lastError := Some message |}) as [[v ->]| ->]; eauto.
  - destruct (executeTask_loop_cases m
                {| ex_taskId := ex_taskId ex; ex_task := ex_task ex;
                   ex_retries := ex_retries ex + 1;
                   ex_lastError := Some (timeout_message (config m)) |})
      as [[v ->]| ->]; eauto.
Qed.

Lemma settle_all_returned outs : forall m ex m' v,
  settle_all m ex outs = (m', Returned v) ->
  runningTasks m' = Set_delete (ex_taskId ex) (runningTasks m).
Proof.
  induction outs as [|[o now] outs IH]; intros m ex m' v; simpl; [discriminate|].
  destruct (executeTask_resume_cases m ex o now)
    as [(m1 & v1 & -> & Hrun)|(ex' & -> & Hid)].
  - now intros [= <- _].
  - intros H. rewrite <- Hid. now apply (IH m ex' m' v).
Qed.

(** X9. An execution that has returned has left the running set,
    however it ended: by a result, by exhausted retries or at once. A
    run on its own gives the slot back: if the id was not registered
    before the call, the running set is afterwards what it was. *)
Theorem returned_execution_leaves_running_set m taskId outs m' v :
  executeTask_run m taskId outs = (m', Returned (Some v)) ->
  Set_has taskId (runningTasks m') = false
  /\ (Set_has taskId (runningTasks m) = false ->
      runningTasks m' = runningTasks m).
Proof.
  destruct (getTask m taskId) as [task|] eqn:Hget.
  2: { unfold executeTask_run, executeTask. unfold getTask in Hget.
       destruct (Map_get taskId (tasks m)) as [r|]; [|discriminate].
       now rewrite Hget. }
  destruct (executeTask_start m taskId task Hget) as (r & _ & _ & Hstart).
  unfold executeTask_run. rewrite Hstart.
  fold (started m taskId r). fold (first_attempt taskId r).
  assert (Hend : runningTasks m'
                 = Set_delete taskId (Set_add taskId (runningTasks m)) ->
                 Set_has taskId (runningTasks m') = false
                 /\ (Set_has taskId (runningTasks m) = false ->
                     runningTasks m' = runningTasks m)).
  { intros ->. split; [apply Set_has_delete|apply Set_delete_add]. }
  destruct (executeTask_loop_cases (started m taskId r) (first_attempt taskId r))
    as [[v' ->]| ->]; simpl.
  - intros [= <- _]. now apply Hend.
  - intros H. apply settle_all_returned in H. now apply Hend.
Qed.

Lemma returned_execution_leaves_running_set_witness :
  runningTasks
    (fst (executeTask_run store_retry "a" [(Resolved succeeded, 1000%Z)]))
  = runningTasks store_retry.
Proof.
  apply (returned_execution_leaves_running_set store_retry "a"
           [(Resolved succeeded, 1000%Z)] _ succeeded); reflexivity.
Defined.

(** ** Success after failures *)

(** X10. A task that is not periodic and whose action fails up to
    [maxRetries] times and then succeeds ends completed: the call
    returns the successful result, not the earlier errors, [lastRunAt]
    is the time of the attempt that succeeded, and [getPendingTasks]
    never returns the task again. *)
Theorem success_after_failures_completes m taskId task fails result ran rest :
  getTask m taskId = Some task ->
  priority task <> periodic ->
  all_failures fails = true ->
  (Z.of_nat (length fails) <= maxRetries (config m))%Z ->
  success result = true ->
  exists m',
    executeTask_run m taskId (fails ++ (Resolved result, ran) :: rest)
    = (m', Returned (Some result))
    /\ getTask m' taskId = Some (set_lastRunAt ran (set_status completed task))
    /\ forall now task',
        getTask m' taskId = Some task' -> ~ In task' (getPendingTasks m' now).
Proof.
  intros Hget Hp Hall Hlen Hok.
  destruct (executeTask_run_resolved m taskId task fails result ran rest
              Hget Hall Hlen) as (m' & Hrun & Hget' & _).
  unfold settled_status in Hget'. rewrite Hok in Hget'.
  destruct (TaskPriority_eqb (priority task) periodic) eqn:Hper.
  { apply TaskPriority_eqb_eq in Hper. contradiction. }
  exists m'. split; [exact Hrun|]. split; [exact Hget'|].
  intros now task' Hsame Hin. rewrite Hget' in Hsame. injection Hsame as <-.
  apply In_getPendingTasks in Hin as [_ Hel].
  apply is_eligible_true in Hel as (Hs & _). discriminate.
Qed.

Lemma success_after_failures_completes_witness :
  exists m',
    executeTask_run store_retry "a"
      [(Rejected "x", 1%Z); (TimedOut, 2%Z); (Resolved succeeded, 3%Z)]
    = (m', Returned (Some succeeded))
    /\ getTask m' "a"
       = Some (set_lastRunAt 3 (set_status completed (sample "a" low pending None))).
Proof.
  destruct (success_after_failures_completes store_retry "a"
              (sample "a" low pending None)
              [(Rejected "x", 1%Z); (TimedOut, 2%Z)] succeeded 3%Z [])
    as (m' & Hrun & Hget & _); try reflexivity.
  - discriminate.
  - now exists m'.
Defined.

(** ** An execution and the rest of the store *)

Lemma only_touches_getTask_same m m' r taskId task :
  Map_get taskId (tasks m) = Some r ->
  heap m !! r = Some task ->
  only_touches r m m' ->
  exists task', getTask m' taskId = Some task' /\ descriptor task' = descriptor task.
Proof.
  intros Hmap Hr (Ht & _ & _ & Hd). unfold getTask. rewrite Ht, Hmap.
  rewrite Hr in Hd. destruct (heap m' !! r) as [task'|]; [|discriminate].
  exists task'. split; [reflexivity|]. simpl in Hd. congruence.
Qed.

(** X11. However an execution goes, it writes two fields of one
    object: in a well-formed store the tasks under other ids, the map
    and the configuration are afterwards as before, and the executed
    task differs at most in [status] and [lastRunAt]. The store stays
    well formed. *)
Theorem execution_touches_one_task m taskId task outs :
  store_ok m ->
  getTask m taskId = Some task ->
  store_ok (fst (executeTask_run m taskId outs))
  /\ tasks (fst (executeTask_run m taskId outs)) = tasks m
  /\ config (fst (executeTask_run m taskId outs)) = config m
  /\ (forall k, k <> taskId ->
                getTask (fst (executeTask_run m taskId outs)) k = getTask m k)
  /\ exists task',
      getTask (fst (executeTask_run m taskId outs)) taskId = Some task'
      /\ descriptor task' = descriptor task.
Proof.
  intros Hok Hget. apply getTask_Some in Hget as (r & Hmap & Hr).
  pose proof (executeTask_run_touches m taskId r outs Hmap) as Htouch.
  split; [exact (only_touches_store_ok _ _ _ Htouch Hok)|].
  split; [apply Htouch|]. split; [apply Htouch|]. split.
  - intros k Hne. exact (only_touches_getTask_other _ _ r taskId k Hok Hmap Htouch Hne).
  - exact (only_touches_getTask_same _ _ r taskId task Hmap Hr Htouch).
Qed.

Lemma execution_touches_one_task_witness :
  getTask
    (fst (executeTask_run store_ab "a"
            [(Rejected "x", 1%Z); (Resolved succeeded, 2%Z)])) "b"
  = getTask store_ab "b".
Proof.
  apply (execution_touches_one_task store_ab "a" (sample "a" low pending None)).
  - do 2 apply store_ok_addTask. apply store_ok_new.
  - reflexivity.
  - discriminate.
Defined.





(** ** Executions and changes to the map *)

(** X13. A suspended execution writes to the object it fetched when it
    started, not to what the map holds when it resumes. A task added
    meanwhile, be it under the id that is being executed, is afterwards
    the copy that was stored, with the status it was added with,
    however the execution ends; a task removed meanwhile stays absent. *)
Theorem execution_writes_to_fetched_object m ex o now :
  (ex_task ex < length (heap m))%nat ->
  (forall task added,
      getTask (fst (executeTask_resume (addTask task added m) ex o now)) (id task)
      = Some (stored task added))
  /\ getTask (fst (executeTask_resume (fst (removeTask (ex_taskId ex) m)) ex o now))
       (ex_taskId ex) = None.
Proof.
  intros Hlt. split.
  - intros task added.
    destruct (executeTask_resume_touches (addTask task added m) ex o now)
      as (Ht & _ & Ho & _).
    unfold getTask. rewrite Ht. simpl. rewrite Map_get_set_eq.
    rewrite Ho by lia. simpl. now apply list_lookup_middle.
  - destruct (executeTask_resume_touches (fst (removeTask (ex_taskId ex) m)) ex o now)
      as (Ht & _).
    unfold getTask. rewrite Ht. simpl. now rewrite Map_get_delete_eq.
Qed.

Lemma execution_writes_to_fetched_object_witness :
  getTask
    (fst (executeTask_resume
            (addTask (sample "a" high pending None) 7 (manager system_once))
            (first_attempt "a" 0) (Resolved succeeded) 9)) "a"
  = Some (sample "a" high pending None).
Proof.
  apply (proj1 (execution_writes_to_fetched_object (manager system_once)
                  (first_attempt "a" 0) (Resolved succeeded) 9%Z
                  ltac:(simpl; lia))
           (sample "a" high pending None) 7%Z).
Defined.

(** X14. The running set counts ids, not executions. When two
    executions of one task are in flight and one of them gets its
    result, the id leaves the running set although the other execution
    is still in flight. *)
Theorem finished_twin_clears_running_set s i j ex ex' result now :
  i <> j ->
  inflight s !! i = Some ex ->
  inflight s !! j = Some ex' ->
  ex_taskId ex' = ex_taskId ex ->
  In ex' (inflight (deliver s i (Resolved result) now))
  /\ Set_has (ex_taskId ex')
       (runningTasks (manager (deliver s i (Resolved result) now))) = false.
Proof.
  intros Hne Hi Hj Hid. unfold deliver. rewrite Hi.
  destruct (executeTask_resume_cases (manager s) ex (Resolved result) now)
    as [(m' & v & Hres & Hrun)|(ex0 & Hres & _)]; [|discriminate].
  rewrite Hres. simpl. split.
  - apply list_elem_of_In, list_elem_of_lookup.
    destruct (Nat.lt_ge_cases j i) as [Hlt|Hge].
    + exists j. now rewrite list_lookup_delete_lt.
    + exists (Nat.pred j). rewrite list_lookup_delete_ge by lia.
      now replace (S (Nat.pred j)) with j by lia.
  - rewrite Hrun, Hid. apply Set_has_delete.
Qed.

Lemma finished_twin_clears_running_set_witness :
  In (first_attempt "a" 0)
    (inflight (deliver system_twice 0 (Resolved succeeded) 1000))
  /\ getRunningCount (manager (deliver system_twice 0 (Resolved succeeded) 1000))
     = 0%Z.
Proof.
  split; [|reflexivity].
  apply (finished_twin_clears_running_set system_twice 0 1
           (first_attempt "a" 0) (first_attempt "a" 0) succeeded 1000%Z);
    reflexivity || lia.
Defined.

(** ** The registry: order of registration *)

Lemma decompose_from_app l1 l2 text task :
  decompose_from (l1 ++ l2) text task
  = if existsb (fun s => DecompositionStrategy.matches s text) l1
    then decompose_from l1 text task
    else decompose_from l2 text task.
Proof.
  induction l1 as [|s l1 IH]; simpl; [reflexivity|].
  destruct (DecompositionStrategy.matches s text); simpl; [reflexivity|exact IH].
Qed.

Lemma decompose_from_first l text task :
  existsb (fun s => DecompositionStrategy.matches s text) l = true ->
  exists before strategy after,
    l = before ++ strategy :: after
    /\ (forall s, In s before -> DecompositionStrategy.matches s text = false)
    /\ DecompositionStrategy.matches strategy text = true
    /\ decompose_from l text task
       = map fill_dependsOn (DecompositionStrategy.decompose strategy task).
Proof.
  induction l as [|s l IH]; simpl; [discriminate|].
  destruct (DecompositionStrategy.matches s text) eqn:Hs; simpl.
  - intros _. exists [], s, l. repeat split; trivial. intros ? [].
  - intros H. destruct (IH H) as (before & strategy & after & -> & Hno & Hyes & Heq).
    exists (s :: before), strategy, after. repeat split; trivial.
    intros s' [<-|Hin]; auto.
Qed.

(** X15. Strategies are tried in the order of their registration and
    the first that matches decides: registering one more strategy
    changes nothing for a task that an earlier strategy matches, and
    gives the new strategy exactly the tasks no earlier one matches. *)
Theorem first_registered_strategy_decides d strategy task :
  canDecompose (registerStrategy strategy d) task
  = canDecompose d task
    || DecompositionStrategy.matches strategy
         (string_or (description task) (name task))
  /\ (canDecompose d task = true ->
      decompose (registerStrategy strategy d) task = decompose d task)
  /\ (canDecompose d task = false ->
      DecompositionStrategy.matches strategy
        (string_or (description task) (name task)) = true ->
      decompose (registerStrategy strategy d) task
      = map fill_dependsOn (DecompositionStrategy.decompose strategy task)).
Proof.
  unfold canDecompose, decompose, registerStrategy. simpl.
  rewrite existsb_app, decompose_from_app. simpl. rewrite orb_false_r.
  split; [reflexivity|]. split.
  - now intros ->.
  - now intros -> ->.
Qed.

(** X16. [canDecompose] and [decompose] agree: when it is true the
    result is what the first matching strategy returns, each subtask
    with a [dependsOn] (an empty one where the strategy set none) and
    otherwise as the strategy made it; when it is false the result is
    the task alone. *)
Theorem decompose_agrees_with_canDecompose d task :
  (canDecompose d task = true ->
   exists before strategy after,
     strategies d = before ++ strategy :: after
     /\ (forall s, In s before ->
                   DecompositionStrategy.matches s
                     (string_or (description task) (name task)) = false)
     /\ DecompositionStrategy.matches strategy
          (string_or (description task) (name task)) = true
     /\ decompose d task
        = map fill_dependsOn (DecompositionStrategy.decompose strategy task)
     /\ forall subtask,
         In subtask (decompose d task) ->
         is_Some (dependsOn subtask)
         /\ exists made,
             In made (DecompositionStrategy.decompose strategy task)
             /\ subtask = set_dependsOn (Some (default [] (dependsOn made))) made)
  /\ (canDecompose d task = false -> decompose d task = [task]).
Proof.
  unfold canDecompose, decompose.
  generalize (string_or (description task) (name task)) as text. intros text.
  split.
  - intros Hcan.
    destruct (decompose_from_first _ text task Hcan)
      as (before & strategy & after & Heq & Hno & Hyes & Hdec).
    exists before, strategy, after.
    split; [exact Heq|]. split; [exact Hno|]. split; [exact Hyes|].
    split; [exact Hdec|].
    intros subtask Hsub. rewrite Hdec in Hsub.
    apply in_map_iff in Hsub as (made & <- & Hin). split.
    + unfold fill_dependsOn. destruct (dependsOn made) eqn:Hd.
      * rewrite Hd. eauto.
      * simpl. eauto.
    + exists made. split; [exact Hin|]. unfold fill_dependsOn.
      destruct made as [i n de p s e c l iv tg dp]. now destruct dp.
  - induction (strategies d) as [|s l IH]; simpl; [reflexivity|].
    destruct (DecompositionStrategy.matches s text); simpl; [discriminate|exact IH].
Qed.

Lemma first_registered_strategy_decides_witness :
  decompose (registerStrategy sign_strategy plus_registry)
    (sample "+a" low pending None)
  = decompose plus_registry (sample "+a" low pending None).
Proof.
  apply (first_registered_strategy_decides plus_registry sign_strategy
           (sample "+a" low pending None)).
  reflexivity.
Defined.

Lemma decompose_agrees_with_canDecompose_witness :
  decompose plus_registry (sample "a" low pending None)
  = [sample "a" low pending None].
Proof.
  apply (decompose_agrees_with_canDecompose plus_registry
           (sample "a" low pending None)).
  reflexivity.
Defined.

(** ** The heartbeat *)

Lemma Q_or_positive (x : option Q) (d : Q) :
  (0 < d)%Q ->
  (forall q, x = Some q -> (0 <= q)%Q) ->
  (0 < Q_or x d)%Q.
Proof.
  intros Hd Hx. unfold Q_or. destruct x as [q|]; [|exact Hd].
  unfold Q_truthy. destruct (Qeq_bool q 0) eqn:Hq; simpl; [exact Hd|].
  specialize (Hx q eq_refl). apply Qle_lteq in Hx as [Hlt|Heq]; [exact Hlt|].
  exfalso. apply not_true_iff_false in Hq. apply Hq, Qeq_bool_iff.
  now symmetry.
Qed.

Lemma shouldTrigger_silent_user d now probe state silent :
  userSilentSeconds state = Some silent ->
  (silent < userSilentThresholdSeconds (idle_config d))%Q ->
  shouldTrigger d now probe state = false.
Proof.
  intros Hs Hlt. unfold shouldTrigger. rewrite Hs.
  apply Qltb_lt in Hlt.
  destruct (cooling_down d now); [reflexivity|].
  destruct (Qltb (default probe (systemIdleSeconds state)) _); [reflexivity|].
  now rewrite Hlt.
Qed.

Lemma shouldTrigger_active d now probe state :
  hasActiveTasks state = Some true ->
  shouldTrigger d now probe state = false.
Proof.
  intros Ha. unfold shouldTrigger. rewrite Ha. simpl.
  destruct (cooling_down d now); [reflexivity|].
  destruct (Qltb (default probe (systemIdleSeconds state)) _); [reflexivity|].
  destruct (userSilentSeconds state) as [silent|]; [|reflexivity].
  now destruct (Qltb silent _).
Qed.

(** X17. The heartbeat passes [getCurrentState()] to [shouldTrigger],
    and [getCurrentState()] called without arguments reports a user
    silence of 0 seconds. So with a positive silence threshold (the
    default 600, and whatever the constructor makes of a configured
    value that is not negative) a heartbeat never triggers: whatever the
    idle probe reads, whatever the time and the tasks, it calls no
    callback, marks no trigger and starts no task. *)
Theorem heartbeat_never_triggers :
  (forall w probe clock,
      (0 < userSilentThresholdSeconds (idle_config (TaskWeaver.detector w)))%Q ->
      TaskWeaver.heartbeat w probe clock = (w, TaskWeaver.Rested))
  /\ (forall c defaults,
         (forall idle q,
             TaskWeaver.idleDetector c = Some idle ->
             opt_userSilentThresholdSeconds idle = Some q -> (0 <= q)%Q) ->
         (0 < userSilentThresholdSeconds
                (idle_config (TaskWeaver.detector (TaskWeaver.new c defaults))))%Q).
Proof.
  split.
  - intros w probe clock Hpos. unfold TaskWeaver.heartbeat.
    now rewrite (shouldTrigger_silent_user _ _ _ _ 0%Q).
  - intros c defaults Hc. simpl. apply Q_or_positive; [reflexivity|].
    intros q Hq. destruct (TaskWeaver.idleDetector c) as [idle|]; simpl in Hq.
    + now apply (Hc idle).
    + discriminate.
Qed.

Lemma heartbeat_never_triggers_witness :
  TaskWeaver.heartbeat
    (TaskWeaver.addTask (sample "a" critical pending None) 0 weaver)
    86400%Q noon
  = (TaskWeaver.addTask (sample "a" critical pending None) 0 weaver,
     TaskWeaver.Rested).
Proof.
  apply (proj1 heartbeat_never_triggers). reflexivity.
Defined.

(** X18. A heartbeat does nothing while a task is registered as
    running, whatever the thresholds: the heartbeat never starts a
    second execution next to one that is running, so the executions it
    starts never reach a [maxConcurrent] above 1. *)
Theorem heartbeat_rests_while_running w probe clock :
  (0 < getRunningCount (TaskWeaver.manager w))%Z ->
  TaskWeaver.heartbeat w probe clock = (w, TaskWeaver.Rested).
Proof.
  intros Hbusy. unfold TaskWeaver.heartbeat.
  rewrite shouldTrigger_active; [reflexivity|]. simpl.
  now destruct (Z.ltb_spec 0 (getRunningCount (TaskWeaver.manager w))); [|lia].
Qed.

Lemma heartbeat_rests_while_running_witness :
  TaskWeaver.heartbeat weaver_busy 86400%Q noon = (weaver_busy, TaskWeaver.Rested).
Proof.
  apply heartbeat_rests_while_running. reflexivity.
Defined.

(** ** Strings *)

Lemma append_inj_l (s a b : string) : (s ++ a = s ++ b)%string -> a = b.
Proof. induction s as [|c s IH]; simpl; [trivial|]. intros [= H]. now apply IH. Qed.

Lemma append_nil_r (s : string) : (s ++ "")%string = s.
Proof. induction s as [|c s IH]; simpl; [reflexivity|]. now rewrite IH. Qed.

Lemma append_assoc (a b c : string) : ((a ++ b) ++ c = a ++ (b ++ c))%string.
Proof. induction a as [|x a IH]; simpl; [reflexivity|]. now rewrite IH. Qed.

Lemma suffixed_ne (s a b : string) : a <> b -> (s ++ a)%string <> (s ++ b)%string.
Proof. intros Hne H. now apply Hne, (append_inj_l s). Qed.

Lemma suffixed_ne_self (s a : string) : a <> "" -> s <> (s ++ a)%string.
Proof.
  intros Hne H. apply Hne, (append_inj_l s). now rewrite append_nil_r.
Qed.

Lemma prefix_spec (k s : string) :
  String.prefix k s = true <-> exists post, s = (k ++ post)%string.
Proof.
  revert s. induction k as [|c k IH]; intros s.
  - split; [intros _; now exists s|now destruct s].
  - destruct s as [|c' s]; simpl; [split; [discriminate|now intros [? [=]]]|].
    destruct (Ascii.ascii_dec c c') as [<-|Hne].
    + rewrite IH. split; intros [post H]; exists post; congruence.
    + split; [discriminate|]. intros [post [= H _]]. congruence.
Qed.

Lemma includes_spec (k s : string) :
  includes k s = true <-> exists pre post, s = (pre ++ k ++ post)%string.
Proof.
  induction s as [|c s IH].
  - change (includes k "") with (String.prefix k "" || false).
    rewrite orb_false_r, prefix_spec. split.
    + intros [post H]. now exists "", post.
    + intros (pre & post & H). destruct pre; [now exists post|discriminate].
  - change (includes k (String c s))
      with (String.prefix k (String c s) || includes k s).
    rewrite orb_true_iff, prefix_spec, IH. split.
    + intros [[post H]|(pre & post & H)].
      * now exists "", post.
      * exists (String c pre), post. simpl. now rewrite H.
    + intros (pre & post & H). destruct pre as [|c' pre]; simpl in H.
      * left. now exists post.
      * right. injection H as _ H. now exists pre, post.
Qed.

(** A string that includes [b] includes every string that [b] includes. *)
Lemma includes_trans (a b s : string) :
  includes a b = true -> includes b s = true -> includes a s = true.
Proof.
  rewrite !includes_spec. intros (p1 & q1 & ->) (p2 & q2 & ->).
  exists (p2 ++ p1)%string, (q1 ++ q2)%string.
  now rewrite !append_assoc.
Qed.

(** ** The first default strategy *)

Lemma search_matches_keyword toLowerCase t1 t2 t3 text keyword :
  In keyword search_keywords ->
  includes keyword (toLowerCase text) = true ->
  DecompositionStrategy.matches (search_organize_execute toLowerCase t1 t2 t3) text
  = true.
Proof.
  intros Hin Hinc.
  change (existsb (fun k => includes k (toLowerCase text)) search_keywords = true).
  apply existsb_exists. now exists keyword.
Qed.

Lemma decompose_search_first toLowerCase t1 t2 t3 others task :
  DecompositionStrategy.matches (search_organize_execute toLowerCase t1 t2 t3)
    (string_or (description task) (name task)) = true ->
  decompose
    {| strategies := search_organize_execute toLowerCase t1 t2 t3 :: others |} task
  = [fill_dependsOn (search_subtask task t1); organize_subtask task t2;
     execute_subtask task t3].
Proof.
  intros Hm. unfold decompose. cbn [strategies decompose_from].
  now rewrite Hm.
Qed.

(** X19. The registry tries [search-organize-execute] first, and its
    keywords occur inside three of the four keywords of
    [health-check-parallel]. A task whose description contains one of
    those three is therefore decomposed into the search, organize and
    execute subtasks, never into the parallel health checks. *)
Theorem health_check_keywords_are_shadowed
    toLowerCase t1 t2 t3 others task keyword :
  In keyword ["健康检查"; "状态检查"; "status check"] ->
  includes keyword (toLowerCase (string_or (description task) (name task))) = true ->
  decompose
    {| strategies := search_organize_execute toLowerCase t1 t2 t3 :: others |} task
  = [fill_dependsOn (search_subtask task t1); organize_subtask task t2;
     execute_subtask task t3].
Proof.
  intros Hk Hinc. apply decompose_search_first.
  destruct Hk as [<-|[<-|[<-|[]]]].
  - apply (search_matches_keyword _ _ _ _ _ "检查"); [simpl; tauto|].
    now apply (includes_trans _ "健康检查").
  - apply (search_matches_keyword _ _ _ _ _ "检查"); [simpl; tauto|].
    now apply (includes_trans _ "状态检查").
  - apply (search_matches_keyword _ _ _ _ _ "check"); [simpl; tauto|].
    now apply (includes_trans _ "status check").
Qed.

Lemma health_check_keywords_are_shadowed_witness :
  map id
    (decompose weaver_registry
       {| id := "daily"; name := "health"; description := Some "系统健康检查";
          priority := high; status := pending; execute := 0%nat;
          createdAt := None; lastRunAt := None; intervalSeconds := None;
          tags := None; dependsOn := None |})
  = ["daily-search"; "daily-organize"; "daily-execute"].
Proof.
  unfold weaver_registry.
  rewrite (health_check_keywords_are_shadowed (fun s => s) 1 2 3 [] _ "健康检查");
    [reflexivity|simpl; tauto|reflexivity].
Defined.

(** X20. When the orchestrator adds a task that the first default
    strategy matches, the task itself is not stored: the store receives
    the three subtasks under the ids [-search], [-organize] and
    [-execute], chained by [dependsOn], and of the three only the search
    subtask is eligible. *)
Theorem addTask_stores_search_chain
    toLowerCase t1 t2 t3 others w task now later :
  TaskWeaver.decomposing w = true ->
  strategies (TaskWeaver.decomposer w)
  = search_organize_execute toLowerCase t1 t2 t3 :: others ->
  DecompositionStrategy.matches (search_organize_execute toLowerCase t1 t2 t3)
    (string_or (description task) (name task)) = true ->
  store_ok (TaskWeaver.manager w) ->
  getTask (TaskWeaver.manager (TaskWeaver.addTask task now w)) (id task)
  = getTask (TaskWeaver.manager w) (id task)
  /\ getTask (TaskWeaver.manager (TaskWeaver.addTask task now w))
       (id task ++ "-search")
     = Some (fill_dependsOn (search_subtask task t1))
  /\ getTask (TaskWeaver.manager (TaskWeaver.addTask task now w))
       (id task ++ "-organize")
     = Some (organize_subtask task t2)
  /\ getTask (TaskWeaver.manager (TaskWeaver.addTask task now w))
       (id task ++ "-execute")
     = Some (execute_subtask task t3)
  /\ In (fill_dependsOn (search_subtask task t1))
       (getPendingTasks (TaskWeaver.manager (TaskWeaver.addTask task now w)) later)
  /\ ~ In (organize_subtask task t2)
         (getPendingTasks (TaskWeaver.manager (TaskWeaver.addTask task now w)) later)
  /\ ~ In (execute_subtask task t3)
         (getPendingTasks (TaskWeaver.manager (TaskWeaver.addTask task now w)) later).
Proof.
  intros Hon Hreg Hm Hok.
  assert (Hcan : canDecompose (TaskWeaver.decomposer w) task = true).
  { unfold canDecompose. rewrite Hreg. cbn [existsb]. now rewrite Hm. }
  assert (Hdec : decompose (TaskWeaver.decomposer w) task
                 = [fill_dependsOn (search_subtask task t1);
                    organize_subtask task t2; execute_subtask task t3]).
  { destruct (TaskWeaver.decomposer w) as [l]. simpl in Hreg. subst l.
    now apply decompose_search_first. }
  unfold TaskWeaver.addTask. rewrite Hon, Hcan, Hdec.
  cbn [andb fold_left TaskWeaver.manager TaskWeaver.with_manager].
  set (s1 := fill_dependsOn (search_subtask task t1)).
  set (s2 := organize_subtask task t2).
  set (s3 := execute_subtask task t3).
  set (m0 := TaskWeaver.manager w) in *.
  set (m1 := addTask s1 now m0).
  set (m2 := addTask s2 now m1).
  set (m3 := addTask s3 now m2).
  assert (Hok1 : store_ok m1) by now apply store_ok_addTask.
  assert (Hok2 : store_ok m2) by now apply store_ok_addTask.
  assert (H12 : id s1 <> id s2) by (apply suffixed_ne; discriminate).
  assert (H13 : id s1 <> id s3) by (apply suffixed_ne; discriminate).
  assert (H23 : id s2 <> id s3) by (apply suffixed_ne; discriminate).
  assert (H01 : id task <> id s1) by (apply suffixed_ne_self; discriminate).
  assert (H02 : id task <> id s2) by (apply suffixed_ne_self; discriminate).
  assert (H03 : id task <> id s3) by (apply suffixed_ne_self; discriminate).
  assert (G1 : getTask m3 (id s1) = Some s1).
  { unfold m3, m2. rewrite !getTask_addTask_ne by trivial.
    unfold m1. rewrite getTask_addTask_eq. reflexivity. }
  assert (G2 : getTask m3 (id s2) = Some s2).
  { unfold m3. rewrite getTask_addTask_ne by trivial.
    unfold m2. rewrite getTask_addTask_eq. reflexivity. }
  assert (G3 : getTask m3 (id s3) = Some s3).
  { unfold m3. rewrite getTask_addTask_eq. reflexivity. }
  split; [|split; [exact G1|split; [exact G2|split; [exact G3|split; [|split]]]]].
  - unfold m3, m2, m1. now rewrite !getTask_addTask_ne by trivial.
  - apply In_getPendingTasks. split; [exact (getTask_In_values _ _ _ G1)|].
    apply is_eligible_true. repeat split.
    + intros deps depId [= <-] [].
    + unfold not_yet_due. simpl. now destruct (priority task).
  - intros Hin. apply In_getPendingTasks in Hin as [_ Hel].
    apply is_eligible_true in Hel as (_ & Hdeps & _).
    destruct (Hdeps [id s1] (id s1) eq_refl (or_introl eq_refl))
      as (dep & Hget & Hc).
    rewrite G1 in Hget. injection Hget as <-. discriminate.
  - intros Hin. apply In_getPendingTasks in Hin as [_ Hel].
    apply is_eligible_true in Hel as (_ & Hdeps & _).
    destruct (Hdeps [id s2] (id s2) eq_refl (or_introl eq_refl))
      as (dep & Hget & Hc).
    rewrite G2 in Hget. injection Hget as <-. discriminate.
Qed.

Lemma addTask_stores_search_chain_witness :
  getTask
    (TaskWeaver.manager
       (TaskWeaver.addTask (sample "check disk" high pending None) 0 weaver))
    "check disk" = None
  /\ map id
       (getPendingTasks
          (TaskWeaver.manager
             (TaskWeaver.addTask (sample "check disk" high pending None) 0 weaver))
          10)
     = ["check disk-search"].
Proof.
  split; [|reflexivity].
  apply (addTask_stores_search_chain (fun s => s) 1 2 3 [] weaver
           (sample "check disk" high pending None) 0%Z 0%Z); try reflexivity.
  apply store_ok_new.
Defined.

(** ** More on the idle trigger *)

(** X21. The constructor of the detector reads a configured [0] as
    missing, so a cooldown cannot be switched off: a detector asked for
    [cooldownSeconds: 0] refuses every trigger during the 1800 seconds
    that follow [markTriggered], whatever the idle state. *)
Theorem zero_cooldown_still_cools_down c marked now probe state :
  opt_cooldownSeconds c = Some 0%Q ->
  (marked <= now < marked + 1800 * 1000)%Z ->
  cooldownSeconds (idle_config (new_IdleDetector c)) = 1800%Q
  /\ shouldTrigger (markTriggered (new_IdleDetector c) marked) now probe state
     = false.
Proof.
  intros Hzero Hwithin.
  assert (Hc : cooldownSeconds (idle_config (new_IdleDetector c)) = 1800%Q)
    by (simpl; now rewrite Hzero).
  split; [exact Hc|].
  unfold shouldTrigger. rewrite cooling_down_markTriggered, Hc.
  assert (Hlt : Qltb (elapsed_seconds now marked) 1800 = true).
  { apply Qltb_lt. unfold elapsed_seconds, Qlt, Qdiv, Qmult, inject_Z. simpl. lia. }
  now rewrite Hlt.
Qed.

Lemma zero_cooldown_still_cools_down_witness :
  shouldTrigger (markTriggered (new_IdleDetector no_cooldown_config) 0) 60000 0
    (scenario_state None) = false.
Proof.
  apply (zero_cooldown_still_cools_down no_cooldown_config 0 60000 0
           (scenario_state None)); [reflexivity|lia].
Defined.

(** ** The eligible tasks, exactly *)

Lemma not_yet_due_spec now task :
  not_yet_due now task = true <->
  priority task = periodic
  /\ exists interval last,
      intervalSeconds task = Some interval
      /\ ~ interval == 0
      /\ lastRunAt task = Some last
      /\ (elapsed_seconds now last < interval)%Q.
Proof.
  unfold not_yet_due. split.
  - destruct (priority task); try discriminate.
    destruct (intervalSeconds task) as [interval|]; [|discriminate].
    destruct (lastRunAt task) as [last|]; [|discriminate].
    intros H. apply andb_true_iff in H as [Ht Hlt].
    split; [reflexivity|]. exists interval, last. repeat split.
    + unfold Q_truthy in Ht. apply negb_true_iff, not_true_iff_false in Ht.
      now rewrite Qeq_bool_iff in Ht.
    + now apply Qltb_lt.
  - intros (-> & interval & last & -> & Hnz & -> & Hlt).
    apply andb_true_iff. split; [|now apply Qltb_lt].
    unfold Q_truthy. apply negb_true_iff, not_true_iff_false.
    now rewrite Qeq_bool_iff.
Qed.

(** X22. [getPendingTasks] returns exactly the tasks of the store that
    are pending, have every dependency in the store and completed, and
    are not periodic tasks with a non-zero interval of which less has
    elapsed since the last run; each such task once, since the result
    is a rearrangement of the filtered store. *)
Theorem getPendingTasks_exactly m now :
  (forall task,
      In task (getPendingTasks m now) <->
      In task (values m)
      /\ status task = pending
      /\ dependencies_completed m task
      /\ ~ (priority task = periodic
            /\ exists interval last,
                intervalSeconds task = Some interval
                /\ ~ interval == 0
                /\ lastRunAt task = Some last
                /\ (elapsed_seconds now last < interval)%Q))
  /\ Permutation (getPendingTasks m now)
       (List.filter (is_eligible m now) (values m)).
Proof.
  split.
  - intros task. rewrite In_getPendingTasks, is_eligible_true.
    rewrite <- not_yet_due_spec, not_true_iff_false. tauto.
  - apply (Array_sort_Permutation (fun t => priorityOrder (priority t))).
Qed.

(** ** Dependencies that never complete *)

(** X23. A task that depends on a periodic task is never made eligible
    by executing that task: however the execution goes, the periodic
    task is not left completed, and its dependent stays out of
    [getPendingTasks]. *)
Theorem dependent_of_periodic_stays_blocked m a ta tb deps outs now :
  getTask m a = Some ta ->
  priority ta = periodic ->
  dependsOn tb = Some deps ->
  In a deps ->
  ~ In tb (getPendingTasks (fst (executeTask_run m a outs)) now).
Proof.
  intros Hta Hp Hdeps Hin Hel.
  apply In_getPendingTasks in Hel as [_ Hel].
  apply is_eligible_true in Hel as (_ & Hall & _).
  destruct (Hall deps a Hdeps Hin) as (dep & Hget & Hc).
  exact (periodic_never_completed m a ta outs dep Hta Hp Hget Hc).
Qed.

Lemma dependent_of_periodic_stays_blocked_witness :
  ~ In (sample "q" high pending (Some ["p"]))
      (getPendingTasks
         (fst (executeTask_run store_after_hourly "p" [(Resolved succeeded, 1000%Z)]))
         7200000).
Proof.
  apply (dependent_of_periodic_stays_blocked store_after_hourly "p" hourly _ ["p"]);
    try reflexivity.
  now left.
Defined.

Lemma Map_get_filter_out {V : Type} (keep : string * V -> bool) k v l :
  List.NoDup (map fst l) ->
  In (k, v) l ->
  keep (k, v) = false ->
  Map_get k (List.filter keep l) = None.
Proof.
  intros Hnd Hin Hout. apply Map_get_None. intros Hk.
  apply in_map_iff in Hk as ([k' v'] & Hfst & Hkept). simpl in Hfst. subst k'.
  apply filter_In in Hkept as [Hin' Hkeep].
  assert (v' = v); [|congruence].
  pose proof (Map_get_NoDup k v l Hnd Hin) as H1.
  pose proof (Map_get_NoDup k v' l Hnd Hin') as H2. congruence.
Qed.

(** X24. [clearCompleted] takes completed tasks out of the store, and a
    dependency that is not in the store counts as unmet: a task that
    depends on a completed task that is not periodic is never eligible
    once [clearCompleted] has run. *)
Theorem clearCompleted_blocks_dependents m a ta tb deps now :
  store_ok m ->
  getTask m a = Some ta ->
  status ta = completed ->
  priority ta <> periodic ->
  dependsOn tb = Some deps ->
  In a deps ->
  getTask (fst (clearCompleted m)) a = None
  /\ ~ In tb (getPendingTasks (fst (clearCompleted m)) now).
Proof.
  intros Hok Hta Hs Hp Hdeps Hin.
  assert (Hgone : getTask (fst (clearCompleted m)) a = None).
  { apply getTask_Some in Hta as (r & Hmap & Hr).
    unfold getTask, clearCompleted. simpl.
    rewrite (Map_get_filter_out _ a r); trivial.
    - apply Hok.
    - now apply Map_get_In.
    - unfold clearable. simpl. rewrite Hr, Hs. simpl.
      destruct (TaskPriority_eqb (priority ta) periodic) eqn:Hper; [|reflexivity].
      apply TaskPriority_eqb_eq in Hper. contradiction. }
  split; [exact Hgone|].
  intros Hel. apply In_getPendingTasks in Hel as [_ Hel].
  apply is_eligible_true in Hel as (_ & Hall & _).
  destruct (Hall deps a Hdeps Hin) as (dep & Hget & _). congruence.
Qed.

Lemma clearCompleted_blocks_dependents_witness :
  In (sample "d" low pending (Some ["c"])) (getPendingTasks store_cd 0)
  /\ ~ In (sample "d" low pending (Some ["c"]))
         (getPendingTasks (fst (clearCompleted store_cd)) 0).
Proof.
  split; [now left|].
  apply (clearCompleted_blocks_dependents store_cd "c"
           (sample "c" high completed None) _ ["c"] 0%Z); try reflexivity.
  - do 2 apply store_ok_addTask. apply store_ok_new.
  - discriminate.
  - now left.
Defined.

(** ** A heartbeat that fires *)

(** X25. A heartbeat that goes on to [executeNext] has found no task
    running, a silence threshold that is not positive and an idle
    reading at the idle threshold or above. It has then called
    [onTrigger], when there is one, with the eligible tasks, has marked
    the trigger, and has made one call of [executeNext]: one heartbeat
    starts at most one task. *)
Theorem heartbeat_that_fires w probe clock w' first c :
  TaskWeaver.heartbeat w probe clock = (w', TaskWeaver.AwaitingNext first c) ->
  (getRunningCount (TaskWeaver.manager w) <= 0)%Z
  /\ (userSilentThresholdSeconds (idle_config (TaskWeaver.detector w)) <= 0)%Q
  /\ (idleThresholdSeconds (idle_config (TaskWeaver.detector w)) <= probe)%Q
  /\ (exists rest,
         getPendingTasks (TaskWeaver.manager w) (TaskWeaver.at_pending clock)
         = first :: rest
         /\ TaskWeaver.calls w'
            = TaskWeaver.calls w
              ++ (if TaskWeaver.hasOnTrigger w then [OnTrigger (first :: rest)]
                  else []))
  /\ TaskWeaver.detector w'
     = markTriggered (TaskWeaver.detector w) (TaskWeaver.at_mark clock)
  /\ (TaskWeaver.manager w', c)
     = executeNext (TaskWeaver.manager w) (TaskWeaver.at_next clock).
Proof.
  unfold TaskWeaver.heartbeat.
  destruct (shouldTrigger _ _ _ _) eqn:Htrigger; [|discriminate].
  destruct (getPendingTasks _ _) as [|t rest] eqn:Hp; [discriminate|].
  intros [= <- <- <-].
  split; [|split; [|split]].
  - destruct (Z.lt_ge_cases 0 (getRunningCount (TaskWeaver.manager w)))
      as [Hbusy|Hfree]; [|lia].
    rewrite shouldTrigger_active in Htrigger; [discriminate|]. simpl.
    now destruct (Z.ltb_spec 0 (getRunningCount (TaskWeaver.manager w))); [|lia].
  - destruct (Qlt_le_dec 0
                (userSilentThresholdSeconds (idle_config (TaskWeaver.detector w))))
      as [Hpos|Hle]; [|exact Hle].
    now rewrite (shouldTrigger_silent_user _ _ _ _ 0%Q) in Htrigger.
  - unfold shouldTrigger in Htrigger. simpl in Htrigger.
    destruct (cooling_down _ _); [discriminate|].
    destruct (Qltb probe _) eqn:Hidle; [discriminate|].
    now apply Qltb_ge.
  - split; [|split].
    + exists rest. split; [reflexivity|].
      destruct (TaskWeaver.hasOnTrigger w); simpl; [reflexivity|].
      now rewrite app_nil_r.
    + now destruct (TaskWeaver.hasOnTrigger w).
    + destruct (TaskWeaver.hasOnTrigger w); simpl;
        now destruct (executeNext _ _).
Qed.

Lemma heartbeat_that_fires_witness :
  exists w' c,
    TaskWeaver.heartbeat weaver_eager 700%Q noon
    = (w', TaskWeaver.AwaitingNext (sample "a" low pending None) c)
    /\ TaskWeaver.detector w'
       = markTriggered (TaskWeaver.detector weaver_eager) 1003.
Proof.
  eexists _, _. split; [reflexivity|].
  eapply (heartbeat_that_fires weaver_eager 700%Q noon). reflexivity.
Defined.
